(** * mdc_queue: discrete-event simulation of an M/D/c queue

    A shallow embedding of [src/mdc_queue.py] (function [simulate] and its
    helper [get_param]) and the properties of its event loop.

    Conventions of the embedding.
    - A Python [float] is an IEEE 754 binary64 number: Rocq's primitive
      [float], with the same [+], [-], [*], [/], [<] and [==].
    - A Python [int] is a [Z].  Float arithmetic converts an [int] operand
      to the nearest float and raises [OverflowError] when it is too large;
      [/] on two [int]s rounds the exact quotient once; a comparison of a
      float with an [int] is exact.
    - An exception is a value of [exn]; code that can raise returns
      [result A = exn + A].
    - [random.expovariate] reads the process-wide generator: the successive
      draws are the sequence [draws : nat -> float] and the state counts how
      many were consumed.
    - [heapq] is Python's standard library, not part of this repository.
      [events] is modelled as the priority queue its documentation
      specifies: [heappush] adds an item, [heappop] removes and returns a
      smallest item under Python's tuple comparison. *)

From Stdlib Require Import ZArith List Bool String Ascii Lia Floats.
From Stdlib Require Import Sorting.Sorted Permutation.
Import ListNotations.

Local Open Scope Z_scope.

(** ** Python values, exceptions *)

Module Py.

Inductive pyval : Type :=
| PyNone
| PyBool (b : bool)
| PyInt (z : Z)
| PyFloat (f : float)
| PyStr (s : string).

Inductive exn : Type :=
| SystemExit (code : Z) (stderr : string)
| ZeroDivisionError
| AssertionError
| IndexError
| OverflowError.

Definition result (A : Type) : Type := (exn + A)%type.

Definition ret {A} (a : A) : result A := inr a.
Definition raise {A} (e : exn) : result A := inl e.
Definition bind {A B} (m : result A) (k : A -> result B) : result B :=
  match m with
  | inl e => inl e
  | inr a => k a
  end.

(** The second argument of [isinstance] at the two call sites of
    [get_param]: [int] and [(int, float)].  [bool] is a subclass of [int]. *)
Inductive pytype : Type := TInt | TIntOrFloat.

Definition isinstance (v : pyval) (typ : pytype) : bool :=
  match typ, v with
  | TInt, (PyInt _ | PyBool _) => true
  | TIntOrFloat, (PyInt _ | PyBool _ | PyFloat _) => true
  | _, _ => false
  end.

Definition is_None (v : pyval) : bool :=
  match v with PyNone => true | _ => false end.

(** [float(n)] for an [int] [n]. *)
Definition float_of_Z (z : Z) : float :=
  SF2Prim (binary_normalize prec emax z 0 false).

(** The integer a value of type [int] (or [bool]) stands for. *)
Definition int_of (v : pyval) : Z :=
  match v with
  | PyInt z => z
  | PyBool b => if b then 1 else 0
  | _ => 0
  end.

(** The float an [int] or [float] operand is converted to in float
    arithmetic. *)
Definition float_of (v : pyval) : float :=
  match v with
  | PyFloat f => f
  | v => float_of_Z (int_of v)
  end.

(** [a / b] on floats: Python raises where IEEE returns an infinity or NaN. *)
Definition truediv (a b : float) : result float :=
  if PrimFloat.eqb b 0%float then raise ZeroDivisionError
  else ret (PrimFloat.div a b).

(** The conversion of an [int] operand of a float operation: the nearest
    float, or [OverflowError] when that would be an infinity. *)
Definition float_of_int (z : Z) : result float :=
  let f := float_of_Z z in
  if PrimFloat.is_infinity f then raise OverflowError else ret f.

(** The operand of a float operation as a float. *)
Definition as_float (v : pyval) : result float :=
  match v with
  | PyFloat f => ret f
  | v => float_of_int (int_of v)
  end.

(** An [int] as an unrounded binary number. *)
Definition int_spec (z : Z) : spec_float :=
  match z with
  | Z0 => S754_zero false
  | Zpos m => S754_finite false m 0
  | Zneg m => S754_finite true m 0
  end.

(** [a / b] on two [int]s: the exact quotient rounded once to the nearest
    float ([0 / b] has the sign of [b]); [ZeroDivisionError] for [b == 0],
    [OverflowError] when the quotient rounds to an infinity, which needs
    [|a| >= 2^1023 * |b|]. *)
Definition int_truediv (a b : Z) : result float :=
  if b =? 0 then raise ZeroDivisionError
  else
    let q := SF2Prim (SFdiv prec emax (int_spec a) (int_spec b)) in
    if Z.abs a <? 2 ^ 1023 * Z.abs b then ret q
    else if PrimFloat.is_infinity q then raise OverflowError
    else ret q.

(** [a / b] on two numbers: on two [int]s (or [bool]s) as above, otherwise
    on floats after both operands are converted. *)
Definition num_truediv (a b : pyval) : result float :=
  match a, b with
  | PyFloat _, _ | _, PyFloat _ =>
      bind (as_float a) (fun x => bind (as_float b) (fun y => truediv x y))
  | _, _ => int_truediv (int_of a) (int_of b)
  end.

(** [v == 0] for a number [v]. *)
Definition is_zero (v : pyval) : bool :=
  match v with
  | PyFloat f => PrimFloat.eqb f 0%float
  | v => int_of v =? 0
  end.

(** [f > z] for a float [f] and an [int] [z], which Python decides on the
    exact values. *)
Definition float_gt_Z (f : float) (z : Z) : bool :=
  match Prim2SF f with
  | S754_nan => false
  | S754_infinity s => negb s
  | S754_zero _ => 0 >? z
  | S754_finite s m e =>
      let v := if s then Zneg m else Zpos m in
      if 0 <=? e then v * 2 ^ e >? z else v >? z * 2 ^ (- e)
  end.

(** The float that stands for a number [v] on the right of [x > v]: [v]
    itself when it is a float; for an [int] the largest float not above it
    (the largest finite float when the [int] is beyond all of them), since
    a float exceeds an [int] exactly when it exceeds that float. *)
Definition threshold (v : pyval) : float :=
  match v with
  | PyFloat f => f
  | v =>
      let f := float_of_Z (int_of v) in
      if float_gt_Z f (int_of v) then PrimFloat.next_down f else f
  end.

(** A [dict] with string keys, as the list of its items. *)
Definition dict : Type := list (string * pyval).

Fixpoint dict_get (params : dict) (name : string) : pyval :=
  match params with
  | [] => PyNone
  | (k, v) :: rest => if String.eqb k name then v else dict_get rest name
  end.

End Py.
Import Py.

Notation "x <- m ;; k" := (bind m (fun x => k))
  (at level 61, m at next level, right associativity).

(** ** get_param *)

Definition dquote : string := String (ascii_of_nat 34) EmptyString.

(** ['Error: wrong/missing parameter "{}".\n'.format(name)] *)
Definition param_error (name : string) : string :=
  ("Error: wrong/missing parameter " ++ dquote ++ name ++ dquote ++ "."
     ++ String (ascii_of_nat 10) EmptyString)%string.

Definition get_param (params : dict) (name : string) (typ : pytype)
  : result pyval :=
  let value := dict_get params name in
  if is_None value || negb (isinstance value typ)
  then raise (SystemExit 1 (param_error name))
  else ret value.

(** ** Events and their order *)

(** event types: [ev_input, ev_done = range(2)] *)
Definition ev_input : Z := 0.
Definition ev_done : Z := 1.

(** An event is one of the tuples the source builds: [(t, ev_input, None)]
    (lines 45 and 88) or [(t, ev_done, start)] with [start] a float (lines 80
    and 101). *)
Inductive event : Type :=
| Input (now : float)
| Done (now : float) (start : float).

Definition time (e : event) : float :=
  match e with Input t | Done t _ => t end.

Definition evtype (e : event) : Z :=
  match e with Input _ => ev_input | Done _ _ => ev_done end.

(** Python's [<] on the two tuples: the first components that are not [==]
    decide; [None] is [==] to [None]. *)
Definition tuple_lt (a b : event) : bool :=
  if negb (PrimFloat.eqb (time a) (time b))
  then PrimFloat.ltb (time a) (time b)
  else if negb (Z.eqb (evtype a) (evtype b))
  then Z.ltb (evtype a) (evtype b)
  else match a, b with
       | Done _ sa, Done _ sb =>
           if negb (PrimFloat.eqb sa sb) then PrimFloat.ltb sa sb else false
       | _, _ => false
       end.

(** ** The event queue *)

(** [heapq.heappush] and [heapq.heappop] keep [events] as a binary heap
    inside a Python list.  Here the list is kept in tuple order: [heappush]
    inserts the item after the items that are not greater, [heappop] takes
    the head.  Both return the same items in the same order whenever no
    timestamp is NaN, since two tuples of which neither is less than the
    other are then equal component by component (up to the sign of a zero);
    the length of the list, read at line 120, is the same. *)

Fixpoint heappush (heap : list event) (item : event) : list event :=
  match heap with
  | [] => [item]
  | x :: rest =>
      if tuple_lt item x then item :: x :: rest
      else x :: heappush rest item
  end.

Definition heappop (heap : list event) : result (event * list event) :=
  match heap with
  | [] => raise IndexError
  | x :: rest => ret (x, rest)
  end.

(** ** The ambient inputs of a run *)

(** [draws i] is what the [i]-th call of [random.expovariate] returns;
    [wallclock_start] and [wallclock_end] are the two readings of
    [time.time()]. *)
Record env : Type := mkEnv {
  draws : nat -> float;
  wallclock_start : float;
  wallclock_end : float
}.

(** [random.expovariate(lambd)] divides a float by [lambd]; [lambd] here is
    the rate already converted for that division (see [configure], which
    raises the [OverflowError] of the conversion). *)
Definition expovariate (w : env) (lambd : float) (i : nat) : result float :=
  if PrimFloat.eqb lambd 0%float then raise ZeroDivisionError
  else ret (draws w i).

(** ** Simulation parameters (lines 37-42) *)

Record config : Type := mkConfig {
  l : float;        (* input rate, as the divisor in random.expovariate *)
  d : float;        (* service time, 1/u *)
  c : Z;            (* number of servers *)
  twait : float;    (* max wait time, as compared with at line 105 *)
  endtime : float   (* as compared with at line 70 *)
}.

(** ** Simulation statistics (lines 51-63) *)

Record statistics : Type := mkStats {
  input_events : Z;
  done_events : Z;
  completed_without_queueing : Z;
  completed_with_queueing : Z;
  avg_wait_time : float;
  avg_completion_time : float;
  avg_queue_depth : float;
  max_queue_depth : Z;
  served_immediately : Z;
  wait_gt_twait : Z;
  wait_lt_twait : Z
}.

Definition stats0 : statistics :=
  mkStats 0 0 0 0 0%float 0%float 0%float 0 0 0 0.

(** [stats['input_events'] += 1] *)
Definition incr_input_events (t : statistics) : statistics :=
  mkStats (input_events t + 1) (done_events t)
    (completed_without_queueing t) (completed_with_queueing t)
    (avg_wait_time t) (avg_completion_time t) (avg_queue_depth t)
    (max_queue_depth t) (served_immediately t)
    (wait_gt_twait t) (wait_lt_twait t).

(** [stats['done_events'] += 1] *)
Definition incr_done_events (t : statistics) : statistics :=
  mkStats (input_events t) (done_events t + 1)
    (completed_without_queueing t) (completed_with_queueing t)
    (avg_wait_time t) (avg_completion_time t) (avg_queue_depth t)
    (max_queue_depth t) (served_immediately t)
    (wait_gt_twait t) (wait_lt_twait t).

(** [stats['avg_wait_time'] += x] *)
Definition add_avg_wait_time (t : statistics) (x : float) : statistics :=
  mkStats (input_events t) (done_events t)
    (completed_without_queueing t) (completed_with_queueing t)
    (avg_wait_time t + x)%float (avg_completion_time t) (avg_queue_depth t)
    (max_queue_depth t) (served_immediately t)
    (wait_gt_twait t) (wait_lt_twait t).

(** [stats['avg_completion_time'] += x] *)
Definition add_avg_completion_time (t : statistics) (x : float) : statistics :=
  mkStats (input_events t) (done_events t)
    (completed_without_queueing t) (completed_with_queueing t)
    (avg_wait_time t) (avg_completion_time t + x)%float (avg_queue_depth t)
    (max_queue_depth t) (served_immediately t)
    (wait_gt_twait t) (wait_lt_twait t).

(** [stats['avg_queue_depth'] += x] *)
Definition add_avg_queue_depth (t : statistics) (x : float) : statistics :=
  mkStats (input_events t) (done_events t)
    (completed_without_queueing t) (completed_with_queueing t)
    (avg_wait_time t) (avg_completion_time t) (avg_queue_depth t + x)%float
    (max_queue_depth t) (served_immediately t)
    (wait_gt_twait t) (wait_lt_twait t).

(** [stats['max_queue_depth'] = max(stats['max_queue_depth'], n)] *)
Definition update_max_queue_depth (t : statistics) (n : Z) : statistics :=
  mkStats (input_events t) (done_events t)
    (completed_without_queueing t) (completed_with_queueing t)
    (avg_wait_time t) (avg_completion_time t) (avg_queue_depth t)
    (Z.max (max_queue_depth t) n) (served_immediately t)
    (wait_gt_twait t) (wait_lt_twait t).

(** [stats['served_immediately'] += 1] *)
Definition incr_served_immediately (t : statistics) : statistics :=
  mkStats (input_events t) (done_events t)
    (completed_without_queueing t) (completed_with_queueing t)
    (avg_wait_time t) (avg_completion_time t) (avg_queue_depth t)
    (max_queue_depth t) (served_immediately t + 1)
    (wait_gt_twait t) (wait_lt_twait t).

(** [stats['wait_gt_twait'] += 1] *)
Definition incr_wait_gt_twait (t : statistics) : statistics :=
  mkStats (input_events t) (done_events t)
    (completed_without_queueing t) (completed_with_queueing t)
    (avg_wait_time t) (avg_completion_time t) (avg_queue_depth t)
    (max_queue_depth t) (served_immediately t)
    (wait_gt_twait t + 1) (wait_lt_twait t).

(** [stats['wait_lt_twait'] += 1] *)
Definition incr_wait_lt_twait (t : statistics) : statistics :=
  mkStats (input_events t) (done_events t)
    (completed_without_queueing t) (completed_with_queueing t)
    (avg_wait_time t) (avg_completion_time t) (avg_queue_depth t)
    (max_queue_depth t) (served_immediately t)
    (wait_gt_twait t) (wait_lt_twait t + 1).

(** ** Simulation state (lines 45-48) *)

(** [drawn] is the number of calls of [random.expovariate] made so far. *)
Record sim : Type := mkSim {
  events : list event;
  queue : list float;
  servers_occupied : Z;
  last_queue_update : float;
  stats : statistics;
  drawn : nat
}.

Definition len {A} (xs : list A) : Z := Z.of_nat (List.length xs).

(** [(now - last_queue_update) * len(queue)] *)
Definition queue_area (now : float) (s : sim) : float :=
  ((now - last_queue_update s) * float_of_Z (len (queue s)))%float.

(** ** The two transitions (lines 72-108) *)

(** Lines 73-88: [evtype == ev_input]. *)
Definition on_input (w : env) (p : config) (now : float) (s : sim)
  : result sim :=
  let st := incr_input_events (stats s) in
  s1 <- (if servers_occupied s <? c p then
           (* schedule immediately *)
           if negb (len (queue s) =? 0) then raise AssertionError
           else ret (mkSim (heappush (events s) (Done (now + d p) now))
                       (queue s) (servers_occupied s + 1)
                       (last_queue_update s)
                       (incr_served_immediately st) (drawn s))
         else
           (* otherwise queue *)
           let st := add_avg_queue_depth st (queue_area now s) in
           let st := update_max_queue_depth st (len (queue s)) in
           ret (mkSim (events s) (queue s ++ [now]) (servers_occupied s)
                  now st (drawn s))) ;;
  dt <- expovariate w (l p) (drawn s1) ;;
  ret (mkSim (heappush (events s1) (Input (now + dt)))
         (queue s1) (servers_occupied s1) (last_queue_update s1)
         (stats s1) (S (drawn s1))).

(** Lines 90-108: [evtype == ev_done]. *)
Definition on_done (p : config) (now start : float) (s : sim) : result sim :=
  let so := servers_occupied s - 1 in
  if negb ((0 <=? so) && (so <? c p)) then raise AssertionError
  else
    let st := incr_done_events (stats s) in
    let completion_time := (now - start)%float in
    let st := add_avg_completion_time st completion_time in
    (* if there is a backlog, service oldest request *)
    match queue s with
    | [] => ret (mkSim (events s) [] so (last_queue_update s) st (drawn s))
    | arrived :: rest =>
        let st := add_avg_queue_depth st (queue_area now s) in
        let wait_time := (now - arrived)%float in
        let st := add_avg_wait_time st wait_time in
        let st := if PrimFloat.ltb (twait p) wait_time
                  then incr_wait_gt_twait st
                  else incr_wait_lt_twait st in
        ret (mkSim (heappush (events s) (Done (now + d p) arrived))
               rest (so + 1) now st (drawn s))
    end.

(** ** The driver loop (lines 67-108) *)

Inductive outcome : Type :=
| Continue (s : sim)      (* the event was dispatched *)
| Break (s : sim)         (* [now > endtime]: the loop ends *)
| Raise (e : exn).        (* an exception leaves [simulate] *)

Definition set_events (s : sim) (evs : list event) : sim :=
  mkSim evs (queue s) (servers_occupied s) (last_queue_update s)
    (stats s) (drawn s).

Definition dispatch (w : env) (p : config) (ev : event) (s : sim)
  : result sim :=
  match ev with
  | Input now => on_input w p now s
  | Done now start => on_done p now start s
  end.

Definition loop_body (w : env) (p : config) (s : sim) : outcome :=
  if negb (len (events s) >? 0) then Raise AssertionError
  else
    match heappop (events s) with
    | inl e => Raise e
    | inr (ev, rest) =>
        if PrimFloat.ltb (endtime p) (time ev) then Break (set_events s rest)
        else match dispatch w p ev (set_events s rest) with
             | inl e => Raise e
             | inr s' => Continue s'
             end
    end.

(** [while True]: [None] when [fuel] iterations did not reach the [break]. *)
Fixpoint loop (w : env) (p : config) (fuel : nat) (s : sim)
  : option (result sim) :=
  match fuel with
  | O => None
  | S fuel' =>
      match loop_body w p s with
      | Continue s' => loop w p fuel' s'
      | Break s' => Some (ret s')
      | Raise e => Some (raise e)
      end
  end.

(** ** Finalization (lines 110-122) *)

(** The dictionary [simulate] returns: the counters that were divided are
    floats now, and three keys were added. *)
Module Final.
Record t : Type := mk {
  input_events : Z;
  done_events : Z;
  completed_without_queueing : Z;
  completed_with_queueing : Z;
  avg_wait_time : float;
  avg_completion_time : float;
  avg_queue_depth : float;
  max_queue_depth : Z;
  served_immediately : float;
  wait_gt_twait : float;
  wait_lt_twait : float;
  elapsed_time : float;
  queue_end_len : Z;
  events_end_len : Z
}.
End Final.

(** [endtime] is the parameter as [get_param] returned it. *)
Definition finalize (w : env) (endtime : pyval) (s : sim) : result Final.t :=
  let st := stats s in
  let n := PyInt (done_events st) in
  awt <- num_truediv (PyFloat (avg_wait_time st)) n ;;
  act <- num_truediv (PyFloat (avg_completion_time st)) n ;;
  aqd <- num_truediv (PyFloat (avg_queue_depth st)) endtime ;;
  let elapsed := (wallclock_end w - wallclock_start w)%float in
  lt <- num_truediv (PyInt (wait_lt_twait st)) n ;;
  gt <- num_truediv (PyInt (wait_gt_twait st)) n ;;
  si <- num_truediv (PyInt (served_immediately st)) n ;;
  ret (Final.mk (input_events st) (done_events st)
         (completed_without_queueing st) (completed_with_queueing st)
         awt act aqd (max_queue_depth st) si gt lt elapsed
         (len (queue s)) (len (events s))).

(** ** simulate *)

(** The state before the first iteration (lines 45-63): one arrival is
    pending, at the first draw. *)
Definition init_sim (first : float) : sim :=
  mkSim [Input first] [] 0 0%float stats0 1%nat.

(** Lines 37-63: the parameters, and the state before the first iteration. *)
Definition configure (w : env) (params : dict) : result (config * sim) :=
  l <- get_param params "l"%string TIntOrFloat ;;
  u <- get_param params "u"%string TIntOrFloat ;;
  d <- num_truediv (PyInt 1) u ;;
  c <- get_param params "c"%string TInt ;;
  twait <- get_param params "twait"%string TIntOrFloat ;;
  endtime <- get_param params "endtime"%string TIntOrFloat ;;
  lambd <- as_float l ;;
  first <- expovariate w lambd 0 ;;
  ret (mkConfig lambd d (int_of c) (threshold twait) (threshold endtime),
       init_sim first).

Definition simulate (w : env) (params : dict) (fuel : nat)
  : option (result Final.t) :=
  match configure w params with
  | inl e => Some (raise e)
  | inr (p, s0) =>
      match loop w p fuel s0 with
      | None => None
      | Some (inl e) => Some (raise e)
      | Some (inr s) => Some (finalize w (dict_get params "endtime") s)
      end
  end.

(** ** Runs of the loop *)

(** [run_to w p s0 log s]: starting in [s0], the loop dispatched the events
    of [log] (newest first, each with the state it was popped in) and is at
    the head of the [while] in state [s]. *)
Inductive run_to (w : env) (p : config) (s0 : sim)
  : list (event * sim) -> sim -> Prop :=
| run_start : run_to w p s0 [] s0
| run_step log s ev rest s' :
    run_to w p s0 log s ->
    heappop (events s) = inr (ev, rest) ->
    loop_body w p s = Continue s' ->
    run_to w p s0 ((ev, s) :: log) s'.

(** The loop reaches its [break] after dispatching [log], leaving [s']. *)
Definition run_ends (w : env) (p : config) (s0 : sim)
  (log : list (event * sim)) (s' : sim) : Prop :=
  exists s, run_to w p s0 log s /\ loop_body w p s = Break s'.

(** The first [n] iterations, when each of them dispatches an event: the log
    and the state reached. *)
Fixpoint trace (w : env) (p : config) (n : nat) (s0 : sim)
  : option (list (event * sim) * sim) :=
  match n with
  | O => Some ([], s0)
  | S n' =>
      match trace w p n' s0 with
      | Some (log, s) =>
          match heappop (events s), loop_body w p s with
          | inr (ev, _), Continue s' => Some ((ev, s) :: log, s')
          | _, _ => None
          end
      | None => None
      end
  end.

(** ** Auxiliary notions used in the statements *)

Definition is_input (e : event) : bool :=
  match e with Input _ => true | Done _ _ => false end.

Definition is_done (e : event) : bool :=
  match e with Input _ => false | Done _ _ => true end.

Definition tally {A} (f : A -> bool) (xs : list A) : Z := len (filter f xs).

(** [a] is not greater than [b] in the tuple order. *)
Definition tuple_le (a b : event) : Prop := tuple_lt b a = false.

(** The comparison of the second and third components of two tuples. *)
Definition tail_lt (a b : event) : bool :=
  match a, b with
  | Input _, Done _ _ => true
  | Done _ sa, Done _ sb => PrimFloat.ltb sa sb
  | _, _ => false
  end.

Definition logged_input (x : event * sim) : bool := is_input (fst x).
Definition logged_done (x : event * sim) : bool := is_done (fst x).

(** A logged event was popped at or before the horizon. *)
Definition within_horizon (p : config) (x : event * sim) : Prop :=
  PrimFloat.ltb (endtime p) (time (fst x)) = false.

(** A logged completion that found a job waiting, and the wait of that job
    (line 103). *)
Definition dequeues (x : event * sim) : bool :=
  match x with
  | (Done _ _, s) => negb (len (queue s) =? 0)
  | _ => false
  end.

Definition wait_of (x : event * sim) : float :=
  match x with
  | (ev, s) => (time ev - hd 0%float (queue s))%float
  end.

Definition dequeues_above (p : config) (x : event * sim) : bool :=
  dequeues x && PrimFloat.ltb (twait p) (wait_of x).

Definition dequeues_within (p : config) (x : event * sim) : bool :=
  dequeues x && negb (PrimFloat.ltb (twait p) (wait_of x)).

(** The occupancy invariant of the state machine. *)
Definition occupancy_ok (p : config) (s : sim) : Prop :=
  0 <= servers_occupied s <= c p
  /\ (queue s <> [] -> servers_occupied s = c p).

(** What the transition logic keeps true for any [c]. *)
Record consistent (p : config) (s : sim) : Prop := mkConsistent {
  one_input_pending : tally is_input (events s) = 1;
  done_pending : tally is_done (events s) = servers_occupied s;
  occupied_lo : 0 <= servers_occupied s;
  occupied_hi : servers_occupied s <= Z.max 0 (c p);
  backlog_busy : queue s <> [] -> c p <= servers_occupied s;
  jobs_balance :
    input_events (stats s)
    = done_events (stats s) + servers_occupied s + len (queue s);
  starts_balance :
    served_immediately (stats s) + wait_gt_twait (stats s)
      + wait_lt_twait (stats s)
    = done_events (stats s) + servers_occupied s;
  unused_zero :
    completed_without_queueing (stats s) = 0
    /\ completed_with_queueing (stats s) = 0;
  events_sorted : StronglySorted tuple_le (events s)
}.

(** How the counters relate to the log of a run started in [s0]. *)
Record accounted (p : config) (s0 : sim) (log : list (event * sim)) (s : sim)
  : Prop := mkAccounted {
  acc_input :
    input_events (stats s) - input_events (stats s0) = tally logged_input log;
  acc_done :
    done_events (stats s) - done_events (stats s0) = tally logged_done log;
  acc_gt :
    wait_gt_twait (stats s) - wait_gt_twait (stats s0)
    = tally (dequeues_above p) log;
  acc_lt :
    wait_lt_twait (stats s) - wait_lt_twait (stats s0)
    = tally (dequeues_within p) log;
  acc_horizon : Forall (within_horizon p) log
}.

(** The parameters [simulate] reads, in the order it reads them, with the
    type it asks [get_param] to check. *)
Definition param_types : list (string * pytype) :=
  [("l"%string, TIntOrFloat); ("u"%string, TIntOrFloat); ("c"%string, TInt);
   ("twait"%string, TIntOrFloat); ("endtime"%string, TIntOrFloat)].

Definition param_ok (params : dict) (nt : string * pytype) : bool :=
  negb (is_None (dict_get params (fst nt)))
  && isinstance (dict_get params (fst nt)) (snd nt).

(** Every parameter is present with the type [simulate] asks for. *)
Definition well_typed (params : dict) : bool :=
  forallb (param_ok params) param_types.

(** ** Sample runs *)

(** A generator whose first draws are [xs] and all later ones [rest]. *)
Definition replay (xs : list float) (rest : float) : env :=
  mkEnv (fun i => nth i xs rest) 0%float 0%float.

Definition params_of (l u : float) (c : Z) (twait endtime : float) : dict :=
  [("l"%string, PyFloat l); ("u"%string, PyFloat u); ("c"%string, PyInt c);
   ("twait"%string, PyFloat twait); ("endtime"%string, PyFloat endtime)].

(** Arrivals at 0.25 and 0.5, the next one at 100.5. *)
Definition two_arrivals : env := replay [0.25; 0.25]%float 100%float.

(** One server, service time 1, horizon 2: the second job waits from 0.5 to
    1.25 and is still in service at the horizon. *)
Definition one_server : dict := params_of 1 1 1 1 2.

(** Two servers: nobody waits, both jobs complete. *)
Definition two_servers : dict := params_of 1 1 2 1 2.

(** One server, horizon 1: the first job completes at 1.25, after the
    horizon. *)
Definition short_horizon : dict := params_of 1 1 1 1 1.

(** A server count of zero. *)
Definition no_server : dict := params_of 1 1 0 1 2.

(** The parameters [configure] derives from [params_of 1 1 c 1 endtime]. *)
Definition config_of (c : Z) (endtime : float) : config :=
  mkConfig 1 1 c 1 endtime.

(** The second arrival falls at 1.25, the instant the first job completes. *)
Definition simultaneous : env := replay [0.25; 1]%float 100%float.

(** The run of [two_arrivals] with one server and horizon 2, state by state:
    after the first arrival, after the second, after the first completion. *)
Definition first_served : sim :=
  mkSim [Input 0.5; Done 1.25 0.25] [] 1 0
    (mkStats 1 0 0 0 0 0 0 0 1 0 0) 2%nat.

Definition second_waits : sim :=
  mkSim [Done 1.25 0.25; Input 100.5] [0.5%float] 1 0.5
    (mkStats 2 0 0 0 0 0 0 0 1 0 0) 3%nat.

Definition second_in_service : sim :=
  mkSim [Done 2.25 0.5; Input 100.5] [] 1 1.25
    (mkStats 2 1 0 0 0.75 1 0.75 0 1 0 1) 3%nat.

Definition one_server_log : list (event * sim) :=
  [(Done 1.25 0.25, second_waits); (Input 0.5, first_served);
   (Input 0.25, init_sim 0.25)].

(** The draws of a negative rate. *)
Definition backwards : env := replay [-0.25; -0.25]%float (-100)%float.

(** ** Notions for the further properties *)

(** The time of the [n]-th arrival (from 0): the draws added up from left to
    right, as lines 45 and 87-88 do. *)
Fixpoint arrival_time (w : env) (n : nat) : float :=
  match n with
  | O => draws w 0
  | S k => (arrival_time w k + draws w (S k))%float
  end.

(** The times of the logged arrivals, oldest first. *)
Fixpoint arrivals (log : list (event * sim)) : list float :=
  match log with
  | [] => []
  | (ev, _) :: older =>
      arrivals older ++ (if is_input ev then [time ev] else [])
  end.

(** The logged arrivals that found no free server (line 81) and were
    appended to the queue, oldest first. *)
Fixpoint enqueued (p : config) (log : list (event * sim)) : list float :=
  match log with
  | [] => []
  | (ev, s) :: older =>
      enqueued p older
      ++ (if is_input ev && negb (servers_occupied s <? c p)
          then [time ev] else [])
  end.

(** The jobs the logged completions took from the queue (line 100), in the
    order they were taken. *)
Fixpoint dequeued (log : list (event * sim)) : list float :=
  match log with
  | [] => []
  | (ev, s) :: older =>
      dequeued older
      ++ (match ev, queue s with
          | Done _ _, arrived :: _ => [arrived]
          | _, _ => []
          end)
  end.

(** A job arrived at or before the horizon. *)
Definition arrived_in_time (p : config) (t : float) : Prop :=
  PrimFloat.ltb (endtime p) t = false.

(** The arrival time a pending completion carries. *)
Definition start_of (e : event) : option float :=
  match e with Input _ => None | Done _ start => Some start end.

(** The float sum of a list, added from left to right from [0.0]. *)
Definition fsum (xs : list float) : float := fold_left PrimFloat.add xs 0%float.

(** [now - start] of the logged completions (line 94), oldest first. *)
Fixpoint completion_times (log : list (event * sim)) : list float :=
  match log with
  | [] => []
  | (ev, _) :: older =>
      completion_times older
      ++ (match ev with
          | Done now start => [(now - start)%float]
          | Input _ => []
          end)
  end.

(** The waits of the jobs taken from the queue (line 103), oldest first. *)
Fixpoint wait_times (log : list (event * sim)) : list float :=
  match log with
  | [] => []
  | x :: older =>
      wait_times older ++ (if dequeues x then [wait_of x] else [])
  end.

(** The areas [(now - last_queue_update) * len(queue)] added at each append
    to the queue (line 83) and each removal from it (line 98), oldest
    first. *)
Fixpoint queue_areas (p : config) (log : list (event * sim)) : list float :=
  match log with
  | [] => []
  | (ev, s) :: older =>
      queue_areas p older
      ++ (if (is_input ev && negb (servers_occupied s <? c p))
             || dequeues (ev, s)
          then [queue_area (time ev) s] else [])
  end.

(** Dispatching the logged event did not schedule into the past: neither
    the service time nor the draw used for the next arrival, added to the
    time of the event, gives an earlier time. *)
Definition forward (w : env) (p : config) (x : event * sim) : Prop :=
  PrimFloat.ltb (time (fst x) + d p) (time (fst x)) = false
  /\ PrimFloat.ltb (time (fst x) + draws w (drawn (snd x))) (time (fst x))
     = false.

(** No logged event is earlier than the one dispatched before it. *)
Fixpoint chronological (log : list (event * sim)) : Prop :=
  match log with
  | [] => True
  | x :: older =>
      match older with
      | [] => True
      | y :: _ => PrimFloat.ltb (time (fst x)) (time (fst y)) = false
      end
      /\ chronological older
  end.

(** No pending event is earlier than the event dispatched last. *)
Definition none_overdue (log : list (event * sim)) (s : sim) : Prop :=
  match log with
  | [] => True
  | x :: _ =>
      Forall (fun e => PrimFloat.ltb (time e) (time (fst x)) = false)
        (events s)
  end.

(** ** The script around simulate (lines 149-173) *)

(** The exceptions of the script: those of subscripting and of [/] on
    values that are not numbers, besides those of [simulate]. *)
Inductive py_error : Type :=
| KeyError (key : string)
| TypeError
| Uncaught (e : exn).

(** [d[key]] *)
Fixpoint dict_find (d : dict) (key : string) : option pyval :=
  match d with
  | [] => None
  | (k, v) :: rest => if String.eqb k key then Some v else dict_find rest key
  end.

Definition getitem (d : dict) (key : string) : py_error + pyval :=
  match dict_find d key with
  | Some v => inr v
  | None => inl (KeyError key)
  end.

(** [d[key] = v]: the new item is found first, which is all a lookup can
    tell. *)
Definition setitem (d : dict) (key : string) (v : pyval) : dict :=
  (key, v) :: d.

Definition is_number (v : pyval) : bool :=
  match v with
  | PyBool _ | PyInt _ | PyFloat _ => true
  | PyNone | PyStr _ => false
  end.

(** [a / b] on values read from the input file. *)
Definition py_truediv (a b : pyval) : py_error + pyval :=
  if is_number a && is_number b then
    match num_truediv a b with
    | inl e => inl (Uncaught e)
    | inr q => inr (PyFloat q)
    end
  else inl TypeError.

(** Lines 169-170: [simdata['endtime'] = simdata['nevents'] / simdata['l']]
    and [simdata['d'] = 1.0/simdata['u']]. *)
Definition prepare (simdata : dict) : py_error + dict :=
  match getitem simdata "nevents" with
  | inl e => inl e
  | inr nevents =>
      match getitem simdata "l" with
      | inl e => inl e
      | inr lv =>
          match py_truediv nevents lv with
          | inl e => inl e
          | inr endtime =>
              let simdata := setitem simdata "endtime" endtime in
              match getitem simdata "u" with
              | inl e => inl e
              | inr uv =>
                  match py_truediv (PyFloat 1) uv with
                  | inl e => inl e
                  | inr dv => inr (setitem simdata "d" dv)
                  end
              end
          end
      end
  end.

(** Lines 169-172, up to the call of [show_statistics]: the dictionary
    passed to [simulate] and the statistics it returned. *)
Definition run_script (w : env) (simdata : dict) (fuel : nat)
  : option (py_error + dict * Final.t) :=
  match prepare simdata with
  | inl e => Some (inl e)
  | inr simdata =>
      match simulate w simdata fuel with
      | None => None
      | Some (inl e) => Some (inl (Uncaught e))
      | Some (inr stats) => Some (inr (simdata, stats))
      end
  end.

(** ** CSV output (lines 151-167) *)

Definition params_fields : list string :=
  ["l"; "u"; "c"; "twait"; "endtime"]%string.

Definition stats_fields : list string :=
  ["input_events"; "done_events"; "queue_end_len";
   "events_end_len"; "avg_queue_depth"; "max_queue_depth";
   "avg_wait_time"; "avg_completion_time"; "served_immediately";
   "wait_lt_twait"; "wait_gt_twait"]%string.

(** The dictionary [simulate] returns, with its keys: those of the literal
    of lines 51-63 and the three added at lines 115, 119 and 120. *)
Definition stats_dict (r : Final.t) : dict :=
  [("input_events", PyInt (Final.input_events r));
   ("done_events", PyInt (Final.done_events r));
   ("completed_without_queueing", PyInt (Final.completed_without_queueing r));
   ("completed_with_queueing", PyInt (Final.completed_with_queueing r));
   ("avg_wait_time", PyFloat (Final.avg_wait_time r));
   ("avg_completion_time", PyFloat (Final.avg_completion_time r));
   ("avg_queue_depth", PyFloat (Final.avg_queue_depth r));
   ("max_queue_depth", PyInt (Final.max_queue_depth r));
   ("served_immediately", PyFloat (Final.served_immediately r));
   ("wait_gt_twait", PyFloat (Final.wait_gt_twait r));
   ("wait_lt_twait", PyFloat (Final.wait_lt_twait r));
   ("elapsed_time", PyFloat (Final.elapsed_time r));
   ("queue_end_len", PyInt (Final.queue_end_len r));
   ("events_end_len", PyInt (Final.events_end_len r))]%string.

(** [','.join(values)] *)
Fixpoint join (values : list string) : string :=
  match values with
  | [] => EmptyString
  | [v] => v
  | v :: rest => (v ++ "," ++ join rest)%string
  end.

Definition newline : string := String (ascii_of_nat 10) EmptyString.

(** [[ str(d[field]) for field in fields ]], with Python's [str] as
    [to_str]. *)
Fixpoint str_items (to_str : pyval -> string) (d : dict)
  (fields : list string) : py_error + list string :=
  match fields with
  | [] => inr []
  | field :: rest =>
      match getitem d field with
      | inl e => inl e
      | inr v =>
          match str_items to_str d rest with
          | inl e => inl e
          | inr vs => inr (to_str v :: vs)
          end
      end
  end.

(** What [write_csv_header] prints; it does not use its two arguments. *)
Definition write_csv_header : string :=
  (join (params_fields ++ stats_fields) ++ newline)%string.

(** What [write_csv] prints, or the exception it raises. *)
Definition write_csv (to_str : pyval -> string) (params stats : dict)
  : py_error + string :=
  match str_items to_str params params_fields with
  | inl e => inl e
  | inr values =>
      match str_items to_str stats stats_fields with
      | inl e => inl e
      | inr more => inr (join (values ++ more) ++ newline)%string
      end
  end.

(** Sample input of the script: 2 expected arrivals at rate 1, and an
    [endtime] that the script overwrites. *)
Definition sample_simdata : dict :=
  [("l"%string, PyFloat 1); ("u"%string, PyFloat 1); ("c"%string, PyInt 1);
   ("twait"%string, PyFloat 1); ("nevents"%string, PyInt 2);
   ("endtime"%string, PyFloat 1000)].

(** A rate of zero. *)
Definition zero_rate : dict := params_of 0 1 1 1 2.

(** The run of [simultaneous] with one server: after the first arrival the
    second arrival and the first completion are pending with the same
    timestamp; after the second arrival, which had to queue, the
    completion is next. *)
Definition tie_pending : sim :=
  mkSim [Input 1.25; Done 1.25 0.25] [] 1 0
    (mkStats 1 0 0 0 0 0 0 0 1 0 0) 2%nat.

Definition tie_resolved : sim :=
  mkSim [Done 1.25 0.25; Input 101.25] [1.25%float] 1 1.25
    (mkStats 2 0 0 0 0 0 0 0 1 0 0) 3%nat.

(** * Properties *)

#[local] Arguments Z.add _ _ : simpl never.
#[local] Arguments Z.sub _ _ : simpl never.
#[local] Arguments Z.max _ _ : simpl never.
#[local] Arguments Z.of_nat _ : simpl never.

(** ** The order of floats *)

Ltac sf_cases :=
  repeat match goal with
    | s : bool |- _ => destruct s
    end;
  simpl; try congruence;
  repeat match goal with
    | |- context [Z.compare ?a ?b] => destruct (Z.compare_spec a b)
    | |- context [Pos.compare_cont Eq ?a ?b] =>
        change (Pos.compare_cont Eq a b) with (Pos.compare a b);
        destruct (Pos.compare_spec a b)
    end;
  simpl; intros; try congruence; try (exfalso; lia).

Lemma SFcompare_antisym x y r :
  SFcompare x y = Some r -> SFcompare y x = Some (CompOpp r).
Proof.
  destruct x as [s1| s1| |s1 m1 e1], y as [s2|s2| |s2 m2 e2]; simpl;
    try congruence; intros H; injection H as <-; sf_cases.
Qed.

Lemma SFcompare_trans x y z r :
  SFcompare x y = Some r -> SFcompare y z = Some r -> SFcompare x z = Some r.
Proof.
  destruct x as [s1| s1| |s1 m1 e1], y as [s2|s2| |s2 m2 e2],
    z as [s3|s3| |s3 m3 e3]; simpl; try congruence;
    intros H; injection H as <-; sf_cases.
Qed.

Lemma SFcompare_eq_l x y z r :
  SFcompare x y = Some Eq -> SFcompare y z = Some r -> SFcompare x z = Some r.
Proof.
  destruct x as [s1| s1| |s1 m1 e1], y as [s2|s2| |s2 m2 e2],
    z as [s3|s3| |s3 m3 e3]; simpl; try congruence;
    intros H H'; injection H' as <-; revert H; sf_cases.
Qed.

Lemma SFcompare_eq_r x y z r :
  SFcompare x y = Some r -> SFcompare y z = Some Eq -> SFcompare x z = Some r.
Proof.
  destruct x as [s1| s1| |s1 m1 e1], y as [s2|s2| |s2 m2 e2],
    z as [s3|s3| |s3 m3 e3]; simpl; try congruence;
    intros H; injection H as <-; sf_cases.
Qed.

Section FloatOrder.
Local Open Scope float_scope.

Lemma eqb_true x y : (x =? y) = true <-> SFcompare (Prim2SF x) (Prim2SF y) = Some Eq.
Proof.
  rewrite eqb_spec. unfold SFeqb.
  destruct (SFcompare _ _) as [[]|]; split; congruence.
Qed.

Lemma ltb_true x y : (x <? y) = true <-> SFcompare (Prim2SF x) (Prim2SF y) = Some Lt.
Proof.
  rewrite ltb_spec. unfold SFltb.
  destruct (SFcompare _ _) as [[]|]; split; congruence.
Qed.

Lemma ltb_trans x y z : (x <? y) = true -> (y <? z) = true -> (x <? z) = true.
Proof. rewrite !ltb_true. apply SFcompare_trans. Qed.

Lemma ltb_asym x y : (x <? y) = true -> (y <? x) = false.
Proof.
  rewrite ltb_true. intros H. apply SFcompare_antisym in H.
  rewrite ltb_spec. unfold SFltb. now rewrite H.
Qed.

Lemma ltb_not_eqb x y : (x <? y) = true -> (x =? y) = false.
Proof.
  rewrite ltb_true, eqb_spec. unfold SFeqb. now intros ->.
Qed.

Lemma eqb_sym x y : (x =? y) = (y =? x).
Proof.
  rewrite !eqb_spec. unfold SFeqb.
  destruct (SFcompare (Prim2SF x) (Prim2SF y)) as [r|] eqn:E.
  - apply SFcompare_antisym in E. rewrite E. now destruct r.
  - destruct (SFcompare (Prim2SF y) (Prim2SF x)) as [r|] eqn:E'; [|reflexivity].
    apply SFcompare_antisym in E'. congruence.
Qed.

Lemma eqb_trans x y z : (x =? y) = true -> (y =? z) = true -> (x =? z) = true.
Proof. rewrite !eqb_true. apply SFcompare_trans. Qed.

Lemma eqb_ltb_trans x y z : (x =? y) = true -> (y <? z) = true -> (x <? z) = true.
Proof. rewrite eqb_true, !ltb_true. apply SFcompare_eq_l. Qed.

Lemma ltb_eqb_trans x y z : (x <? y) = true -> (y =? z) = true -> (x <? z) = true.
Proof. rewrite eqb_true, !ltb_true. apply SFcompare_eq_r. Qed.

End FloatOrder.

(** ** The order of events *)

Lemma tuple_lt_lex a b :
  tuple_lt a b =
  PrimFloat.ltb (time a) (time b)
  || (PrimFloat.eqb (time a) (time b) && tail_lt a b).
Proof.
  unfold tuple_lt.
  destruct (PrimFloat.eqb (time a) (time b)) eqn:E; simpl.
  - destruct (PrimFloat.ltb (time a) (time b)) eqn:L.
    + apply ltb_not_eqb in L. congruence.
    + destruct a as [ta|ta sa], b as [tb|tb sb]; simpl; try reflexivity.
      destruct (PrimFloat.eqb sa sb) eqn:F; simpl; [|reflexivity].
      destruct (PrimFloat.ltb sa sb) eqn:L'; [|reflexivity].
      apply ltb_not_eqb in L'. congruence.
  - now rewrite orb_false_r.
Qed.

Lemma tuple_lt_cases a b :
  tuple_lt a b = true <->
  PrimFloat.ltb (time a) (time b) = true
  \/ (PrimFloat.eqb (time a) (time b) = true /\ tail_lt a b = true).
Proof.
  rewrite tuple_lt_lex, orb_true_iff, andb_true_iff. reflexivity.
Qed.

Lemma tail_lt_trans a b c :
  tail_lt a b = true -> tail_lt b c = true -> tail_lt a c = true.
Proof.
  destruct a, b, c; simpl; try congruence. apply ltb_trans.
Qed.

Lemma tail_lt_asym a b : tail_lt a b = true -> tail_lt b a = false.
Proof.
  destruct a, b; simpl; try congruence. apply ltb_asym.
Qed.

Lemma tuple_lt_trans a b c :
  tuple_lt a b = true -> tuple_lt b c = true -> tuple_lt a c = true.
Proof.
  rewrite !tuple_lt_cases.
  intros [L1|[E1 T1]] [L2|[E2 T2]].
  - left. eapply ltb_trans; eassumption.
  - left. eapply ltb_eqb_trans; eassumption.
  - left. eapply eqb_ltb_trans; eassumption.
  - right. split.
    + eapply eqb_trans; eassumption.
    + eapply tail_lt_trans; eassumption.
Qed.

Lemma tuple_lt_asym a b : tuple_lt a b = true -> tuple_lt b a = false.
Proof.
  rewrite tuple_lt_cases. intros H.
  destruct (tuple_lt b a) eqn:R; [|reflexivity].
  apply tuple_lt_cases in R.
  destruct H as [L1|[E1 T1]], R as [L2|[E2 T2]].
  - apply ltb_asym in L1. congruence.
  - apply ltb_not_eqb in L1. rewrite eqb_sym in L1. congruence.
  - apply ltb_not_eqb in L2. rewrite eqb_sym in L2. congruence.
  - apply tail_lt_asym in T1. congruence.
Qed.

Lemma tuple_lt_input_done t t' start :
  PrimFloat.eqb t t' = true -> tuple_lt (Input t) (Done t' start) = true.
Proof. unfold tuple_lt. simpl. now intros ->. Qed.

(** ** The event queue *)

Lemma tally_cons {A} (f : A -> bool) x xs :
  tally f (x :: xs) = (if f x then 1 else 0) + tally f xs.
Proof.
  unfold tally, len. cbn [filter]. destruct (f x); cbn [List.length]; lia.
Qed.

Lemma tally_nil {A} (f : A -> bool) : tally f [] = 0.
Proof. reflexivity. Qed.

Lemma tally_nonneg {A} (f : A -> bool) xs : 0 <= tally f xs.
Proof. unfold tally, len. lia. Qed.

Lemma tally_heappush f heap item :
  tally f (heappush heap item) = (if f item then 1 else 0) + tally f heap.
Proof.
  induction heap as [|x rest IH]; cbn [heappush].
  - apply tally_cons.
  - destruct (tuple_lt item x).
    + now rewrite tally_cons.
    + rewrite !tally_cons, IH. lia.
Qed.

Lemma heappush_perm heap item : Permutation (item :: heap) (heappush heap item).
Proof.
  induction heap as [|x rest IH]; simpl.
  - reflexivity.
  - destruct (tuple_lt item x).
    + reflexivity.
    + rewrite perm_swap. now constructor.
Qed.

Lemma heappush_in heap item x :
  In x (heappush heap item) <-> x = item \/ In x heap.
Proof.
  split; intros H.
  - apply (Permutation_in x (Permutation_sym (heappush_perm heap item))) in H.
    destruct H; auto.
  - apply (Permutation_in x (heappush_perm heap item)).
    destruct H; [left|right]; auto.
Qed.

(** [heappush] keeps the queue ordered: it only needs [<] on tuples to be
    transitive and asymmetric, which it is on all floats, NaN included. *)
Lemma heappush_sorted heap item :
  StronglySorted tuple_le heap -> StronglySorted tuple_le (heappush heap item).
Proof.
  induction 1 as [|x rest Hs IH Hx]; simpl.
  - repeat constructor.
  - destruct (tuple_lt item x) eqn:L.
    + constructor; [constructor; assumption|].
      constructor.
      * now apply tuple_lt_asym.
      * rewrite Forall_forall in *. intros y Hy.
        specialize (Hx y Hy). unfold tuple_le in *.
        destruct (tuple_lt y item) eqn:R; [|reflexivity].
        rewrite (tuple_lt_trans _ _ _ R L) in Hx. discriminate.
    + constructor; [assumption|].
      rewrite Forall_forall in *. intros y Hy.
      apply heappush_in in Hy. destruct Hy as [->|Hy]; auto.
Qed.

(** The popped item is a smallest one. *)
Lemma heappop_least heap ev rest :
  StronglySorted tuple_le heap ->
  heappop heap = inr (ev, rest) ->
  StronglySorted tuple_le rest /\ Forall (tuple_le ev) rest.
Proof.
  intros Hs H. destruct heap as [|x xs]; [discriminate|].
  injection H as <- <-. inversion Hs; subst. auto.
Qed.

(** ** One iteration, case by case *)

Section Step.
Variables (w : env) (p : config).

Lemma loop_body_continue s s' :
  loop_body w p s = Continue s' ->
  exists ev rest,
    heappop (events s) = inr (ev, rest)
    /\ PrimFloat.ltb (endtime p) (time ev) = false
    /\ dispatch w p ev (set_events s rest) = inr s'.
Proof.
  unfold loop_body.
  destruct (negb (len (events s) >? 0)); [discriminate|].
  destruct (heappop (events s)) as [e|[ev rest]]; [discriminate|].
  destruct (PrimFloat.ltb (endtime p) (time ev)) eqn:L; [discriminate|].
  destruct (dispatch w p ev (set_events s rest)) as [e|s1] eqn:D;
    [discriminate|].
  intros [= <-]. exists ev, rest. auto.
Qed.

Lemma loop_body_break s s' :
  loop_body w p s = Break s' ->
  exists ev rest,
    heappop (events s) = inr (ev, rest)
    /\ PrimFloat.ltb (endtime p) (time ev) = true
    /\ s' = set_events s rest.
Proof.
  unfold loop_body.
  destruct (negb (len (events s) >? 0)); [discriminate|].
  destruct (heappop (events s)) as [e|[ev rest]]; [discriminate|].
  destruct (PrimFloat.ltb (endtime p) (time ev)) eqn:L.
  - intros [= <-]. exists ev, rest. auto.
  - destruct (dispatch w p ev (set_events s rest)); discriminate.
Qed.

(** An arrival either starts service or joins the queue; either way the
    next arrival is scheduled. *)
Lemma on_input_inv now s s' :
  on_input w p now s = inr s' ->
  let dt := draws w (drawn s) in
  let st := incr_input_events (stats s) in
  (servers_occupied s < c p /\ queue s = []
   /\ s' = mkSim
             (heappush (heappush (events s) (Done (now + d p) now))
                (Input (now + dt)))
             [] (servers_occupied s + 1) (last_queue_update s)
             (incr_served_immediately st) (S (drawn s)))
  \/ (c p <= servers_occupied s
      /\ s' = mkSim (heappush (events s) (Input (now + dt)))
                (queue s ++ [now]) (servers_occupied s) now
                (update_max_queue_depth
                   (add_avg_queue_depth st (queue_area now s))
                   (len (queue s)))
                (S (drawn s))).
Proof.
  unfold on_input, expovariate, bind.
  destruct (Z.ltb_spec (servers_occupied s) (c p)) as [Hlt|Hge].
  - destruct (queue s) as [|q qs] eqn:Q; simpl; [|discriminate].
    destruct (PrimFloat.eqb (l p) 0); simpl; [discriminate|].
    intros [= <-]. left. auto.
  - simpl. destruct (PrimFloat.eqb (l p) 0); simpl; [discriminate|].
    intros [= <-]. right. auto.
Qed.

(** A completion frees a server and, when a job waits, hands it over. *)
Lemma on_done_inv now start s s' :
  on_done p now start s = inr s' ->
  let st := add_avg_completion_time (incr_done_events (stats s))
              (now - start)%float in
  1 <= servers_occupied s <= c p
  /\ ((queue s = []
       /\ s' = mkSim (events s) [] (servers_occupied s - 1)
                 (last_queue_update s) st (drawn s))
      \/ (exists arrived rest,
             queue s = arrived :: rest
             /\ s' = mkSim (heappush (events s) (Done (now + d p) arrived))
                       rest (servers_occupied s - 1 + 1) now
                       (let st' := add_avg_wait_time
                                     (add_avg_queue_depth st (queue_area now s))
                                     (now - arrived)%float in
                        if PrimFloat.ltb (twait p) (now - arrived)%float
                        then incr_wait_gt_twait st'
                        else incr_wait_lt_twait st')
                       (drawn s))).
Proof.
  unfold on_done.
  destruct (Z.leb_spec 0 (servers_occupied s - 1));
    destruct (Z.ltb_spec (servers_occupied s - 1) (c p));
    simpl; try discriminate.
  intros H1. split; [lia|].
  destruct (queue s) as [|arrived rest] eqn:Q.
  - injection H1 as <-. left. auto.
  - injection H1 as <-. right. exists arrived, rest. auto.
Qed.

End Step.

(** ** What every reachable state satisfies *)

Lemma len_app {A} (xs ys : list A) : len (xs ++ ys) = len xs + len ys.
Proof. unfold len. rewrite length_app. lia. Qed.

Lemma len_cons {A} (x : A) xs : len (x :: xs) = len xs + 1.
Proof. unfold len. cbn [List.length]. lia. Qed.

Lemma len_snoc {A} (xs : list A) x : len (xs ++ [x]) = len xs + 1.
Proof. rewrite len_app. reflexivity. Qed.

Lemma len_nonneg {A} (xs : list A) : 0 <= len xs.
Proof. unfold len. lia. Qed.

Lemma len_zero {A} (xs : list A) : len xs = 0 <-> xs = [].
Proof.
  unfold len. destruct xs; simpl; split; try congruence; try lia.
Qed.

Section Invariant.
Variables (w : env) (p : config).

Lemma consistent_init first : consistent p (init_sim first).
Proof.
  constructor; simpl; try reflexivity; try lia; try congruence.
  repeat constructor.
Qed.

Lemma consistent_step s s' :
  consistent p s -> loop_body w p s = Continue s' -> consistent p s'.
Proof.
  intros [Hin Hdn Hlo Hhi Hbusy Hjobs Hstarts [Hz1 Hz2] Hsorted] H.
  apply loop_body_continue in H as (ev & rest & Hpop & _ & Hd).
  destruct (heappop_least _ _ _ Hsorted Hpop) as [Hrest _].
  destruct (events s) as [|x xs] eqn:Ev; [discriminate|].
  injection Hpop as -> ->.
  rewrite tally_cons in Hin, Hdn.
  pose proof (tally_nonneg is_input rest) as Hi0.
  pose proof (tally_nonneg is_done rest) as Hd0.
  pose proof (len_nonneg (queue s)) as Hq0.
  destruct ev as [now|now start]; simpl in Hd, Hin, Hdn.
  - apply on_input_inv in Hd. simpl in Hd.
    destruct Hd as [(Hlt & Hq & ->)|(Hge & ->)]; constructor; simpl;
      rewrite ?tally_heappush, ?len_snoc; simpl;
      try rewrite Hq in *; simpl in *;
      solve [ lia | congruence | auto using heappush_sorted ].
  - apply on_done_inv in Hd. simpl in Hd.
    destruct Hd as [Hso [(Hq & ->)|(arrived & qs & Hq & ->)]].
    + constructor; simpl; rewrite ?Hq in *; simpl in *;
        solve [ lia | congruence | auto ].
    + assert (Hc : c p <= servers_occupied s)
        by (apply Hbusy; rewrite Hq; discriminate).
      rewrite Hq, len_cons in *.
      constructor; simpl; rewrite ?tally_heappush; simpl;
        try (destruct (PrimFloat.ltb (twait p) (now - arrived)); simpl);
        solve [ lia | congruence | auto using heappush_sorted ].
Qed.

Lemma consistent_run first log s :
  run_to w p (init_sim first) log s -> consistent p s.
Proof.
  induction 1 as [|log s ev rest s' _ IH _ Hstep].
  - apply consistent_init.
  - eapply consistent_step; eassumption.
Qed.

(** The three assertions of the loop hold, and [heappop] finds an event:
    with a non-zero rate the loop body raises nothing. *)
Lemma consistent_no_raise s e :
  consistent p s -> PrimFloat.eqb (l p) 0 = false ->
  loop_body w p s <> Raise e.
Proof.
  intros [Hin Hdn Hlo Hhi Hbusy _ _ _ _] Hl.
  unfold loop_body.
  destruct (events s) as [|ev rest] eqn:Ev; [discriminate Hin|].
  replace (len (ev :: rest) >? 0) with true
    by (symmetry; apply Z.gtb_lt; unfold len; cbn [List.length]; lia).
  simpl.
  destruct (PrimFloat.ltb (endtime p) (time ev)); [discriminate|].
  rewrite tally_cons in Hdn.
  pose proof (tally_nonneg is_done rest) as Hd0.
  destruct ev as [now|now start]; simpl in *.
  - unfold on_input, expovariate, bind. simpl. rewrite Hl.
    destruct (Z.ltb_spec (servers_occupied s) (c p)) as [Hlt|Hge].
    + destruct (queue s) as [|q qs]; simpl; [discriminate|].
      exfalso. assert (c p <= servers_occupied s) by (apply Hbusy; discriminate).
      lia.
    + simpl. discriminate.
  - unfold on_done. simpl.
    destruct (Z.leb_spec 0 (servers_occupied s - 1));
      destruct (Z.ltb_spec (servers_occupied s - 1) (c p));
      simpl; try lia.
    destruct (queue s); discriminate.
Qed.

End Invariant.

(** ** Runs, logs and the executable loop *)

Section Runs.
Variables (w : env) (p : config) (s0 : sim).

Lemma trace_run_to n log s :
  trace w p n s0 = Some (log, s) -> run_to w p s0 log s.
Proof.
  revert log s. induction n as [|n IH]; intros log s; simpl.
  - intros [= <- <-]. constructor.
  - destruct (trace w p n s0) as [[log1 s1]|]; [|discriminate].
    destruct (heappop (events s1)) as [e|[ev rest]] eqn:Hpop; [discriminate|].
    destruct (loop_body w p s1) as [s2| |] eqn:Hb; try discriminate.
    intros [= <- <-]. econstructor; eauto.
Qed.

Lemma trace_run_ends n log s s' :
  trace w p n s0 = Some (log, s) -> loop_body w p s = Break s' ->
  run_ends w p s0 log s'.
Proof.
  intros Ht Hb. exists s. split; [eapply trace_run_to; eassumption|assumption].
Qed.

(** A run of the executable loop that returns ends at a [break] reached
    through dispatched events only. *)
Lemma loop_run_ends fuel log s s' :
  run_to w p s0 log s -> loop w p fuel s = Some (inr s') ->
  exists log', run_ends w p s0 log' s'.
Proof.
  revert log s. induction fuel as [|fuel IH]; intros log s Hr; simpl.
  - discriminate.
  - destruct (loop_body w p s) as [s1|s1|e] eqn:Hb.
    + intros Hl.
      destruct (loop_body_continue _ _ _ _ Hb) as (ev & rest & Hpop & _).
      eapply IH; [|eassumption]. econstructor; eassumption.
    + intros [= <-]. exists log, s. auto.
    + discriminate.
Qed.

End Runs.

(** From the initial state the executable loop never leaves by an exception:
    the assertions of lines 68, 77 and 92 cannot fail. *)
Lemma loop_raises_nothing w p first log s fuel e :
  PrimFloat.eqb (l p) 0 = false ->
  run_to w p (init_sim first) log s ->
  loop w p fuel s <> Some (inl e).
Proof.
  intros Hl. revert log s.
  induction fuel as [|fuel IH]; intros log s Hr; simpl; [discriminate|].
  destruct (loop_body w p s) as [s1|s1|e1] eqn:Hb.
  - destruct (loop_body_continue _ _ _ _ Hb) as (ev & rest & Hpop & _).
    eapply IH. econstructor; eassumption.
  - discriminate.
  - exfalso. eapply consistent_no_raise; [|exact Hl|exact Hb].
    eapply consistent_run; eassumption.
Qed.

(** ** The counters against the log of dispatched events *)

Section Log.
Variables (w : env) (p : config) (s0 : sim).

Lemma accounted_run log s : run_to w p s0 log s -> accounted p s0 log s.
Proof.
  induction 1 as [|log s ev rest s' _ [Hi Hd Hg Hl Hh] Hpop Hstep].
  - constructor; rewrite ?tally_nil; solve [lia|constructor].
  - apply loop_body_continue in Hstep as (ev' & rest' & Hpop' & Hle & Hdisp).
    rewrite Hpop in Hpop'. injection Hpop' as <- <-.
    assert (Hh' : Forall (within_horizon p) ((ev, s) :: log))
      by (constructor; assumption).
    destruct ev as [now|now start]; simpl in Hdisp.
    + apply on_input_inv in Hdisp. simpl in Hdisp.
      destruct Hdisp as [(_ & _ & ->)|(_ & ->)];
        constructor; rewrite ?tally_cons;
        unfold dequeues_above, dequeues_within, logged_done, logged_input in *;
        simpl; solve [lia|assumption].
    + apply on_done_inv in Hdisp. simpl in Hdisp.
      destruct Hdisp as [_ [(Hq & ->)|(arrived & qs & Hq & ->)]].
      * constructor; rewrite ?tally_cons;
          unfold dequeues_above, dequeues_within, logged_done, logged_input in *;
          simpl; rewrite ?Hq; simpl; solve [lia|assumption].
      * constructor; rewrite ?tally_cons;
          unfold dequeues_above, dequeues_within, logged_done, logged_input in *;
          simpl; rewrite ?Hq; simpl;
          destruct (PrimFloat.ltb (twait p) (now - arrived)); simpl;
          solve [lia|assumption].
Qed.

End Log.

(** ** Configuration and finalization *)

Lemma get_param_spec params name typ :
  get_param params name typ
  = if param_ok params (name, typ) then ret (dict_get params name)
    else raise (SystemExit 1 (param_error name)).
Proof.
  unfold get_param, param_ok. simpl.
  destruct (is_None (dict_get params name)),
    (isinstance (dict_get params name) typ); reflexivity.
Qed.

(** *** Numbers *)

Lemma float_of_int_inv z f : float_of_int z = inr f -> f = float_of_Z z.
Proof.
  unfold float_of_int. destruct (PrimFloat.is_infinity (float_of_Z z));
    [discriminate|]. now intros [= <-].
Qed.

Lemma as_float_inv v f : as_float v = inr f -> f = float_of v.
Proof.
  destruct v; simpl; try apply float_of_int_inv. now intros [= <-].
Qed.

Lemma as_float_raises v e : as_float v = inl e -> e = OverflowError.
Proof.
  assert (H : forall z, float_of_int z = inl e -> e = OverflowError).
  { intros z. unfold float_of_int.
    destruct (PrimFloat.is_infinity (float_of_Z z)); [|discriminate].
    now intros [= <-]. }
  destruct v; simpl; try apply H. discriminate.
Qed.

Lemma truediv_raises a b e :
  truediv a b = inl e -> e = ZeroDivisionError /\ PrimFloat.eqb b 0 = true.
Proof.
  unfold truediv. destruct (PrimFloat.eqb b 0); [|discriminate].
  intros [= <-]. auto.
Qed.

Lemma truediv_inv a b q :
  truediv a b = inr q -> q = (a / b)%float /\ PrimFloat.eqb b 0 = false.
Proof.
  unfold truediv. destruct (PrimFloat.eqb b 0); [discriminate|].
  intros [= <-]. auto.
Qed.

Lemma int_truediv_raises a b e :
  int_truediv a b = inl e ->
  (e = ZeroDivisionError /\ b = 0)
  \/ (e = OverflowError /\ b <> 0 /\ 2 ^ 1023 * Z.abs b <= Z.abs a).
Proof.
  unfold int_truediv. destruct (Z.eqb_spec b 0) as [->|Hb].
  - intros [= <-]. auto.
  - destruct (Z.ltb_spec (Z.abs a) (2 ^ 1023 * Z.abs b)); [discriminate|].
    destruct (PrimFloat.is_infinity _); [|discriminate].
    intros [= <-]. auto.
Qed.

(** A quotient of two [int]s that is below [2^1023] in magnitude is
    returned: [OverflowError] is out of the question. *)
Lemma int_truediv_small a b :
  b <> 0 -> Z.abs a < 2 ^ 1023 * Z.abs b ->
  exists q, int_truediv a b = inr q.
Proof.
  intros Hb Hlt. unfold int_truediv.
  destruct (Z.eqb_spec b 0); [contradiction|].
  destruct (Z.ltb_spec (Z.abs a) (2 ^ 1023 * Z.abs b)); [eauto|lia].
Qed.

Lemma num_truediv_raises a b e :
  num_truediv a b = inl e -> e = ZeroDivisionError \/ e = OverflowError.
Proof.
  assert (Hf : bind (as_float a)
                 (fun x => bind (as_float b) (fun y => truediv x y)) = inl e ->
               e = ZeroDivisionError \/ e = OverflowError).
  { unfold bind. destruct (as_float a) as [e1|x] eqn:Ea.
    - intros [= <-]. right. eapply as_float_raises; eassumption.
    - destruct (as_float b) as [e2|y] eqn:Eb.
      + intros [= <-]. right. eapply as_float_raises; eassumption.
      + intros H. apply truediv_raises in H. tauto. }
  assert (Hi : int_truediv (int_of a) (int_of b) = inl e ->
               e = ZeroDivisionError \/ e = OverflowError).
  { intros H. apply int_truediv_raises in H. tauto. }
  destruct a, b; simpl; auto.
Qed.

(** A float divided by a number: the divisor is converted, then checked. *)
Lemma float_truediv_inv x b q :
  num_truediv (PyFloat x) b = inr q ->
  q = (x / float_of b)%float /\ PrimFloat.eqb (float_of b) 0 = false
  /\ as_float b = inr (float_of b).
Proof.
  assert (H : bind (as_float b) (fun y => truediv x y) = inr q ->
              q = (x / float_of b)%float
              /\ PrimFloat.eqb (float_of b) 0 = false
              /\ as_float b = inr (float_of b)).
  { unfold bind. destruct (as_float b) as [e|y] eqn:Eb; [discriminate|].
    apply as_float_inv in Eb as Hy. subst y.
    intros Hq. apply truediv_inv in Hq. tauto. }
  destruct b; simpl; exact H.
Qed.

(** *** The parameter block and the finalize step *)

#[local] Arguments num_truediv _ _ : simpl never.
#[local] Arguments as_float _ : simpl never.
#[local] Arguments threshold _ : simpl never.

(** What a successful [configure] returns: the parameters as read, not
    adjusted, and the initial state. *)
Lemma configure_inv w params p s0 :
  configure w params = inr (p, s0) ->
  well_typed params = true
  /\ s0 = init_sim (draws w 0)
  /\ PrimFloat.eqb (l p) 0 = false
  /\ as_float (dict_get params "l") = inr (l p)
  /\ c p = int_of (dict_get params "c")
  /\ twait p = threshold (dict_get params "twait")
  /\ endtime p = threshold (dict_get params "endtime")
  /\ num_truediv (PyInt 1) (dict_get params "u") = inr (d p).
Proof.
  unfold configure, well_typed, expovariate. simpl forallb.
  rewrite !get_param_spec.
  destruct (param_ok params ("l"%string, TIntOrFloat)); simpl;
    [|discriminate].
  destruct (param_ok params ("u"%string, TIntOrFloat)); simpl;
    [|discriminate].
  destruct (num_truediv (PyInt 1) (dict_get params "u")) as [e|dv];
    simpl; [discriminate|].
  destruct (param_ok params ("c"%string, TInt)); simpl; [|discriminate].
  destruct (param_ok params ("twait"%string, TIntOrFloat)); simpl;
    [|discriminate].
  destruct (param_ok params ("endtime"%string, TIntOrFloat)); simpl;
    [|discriminate].
  destruct (as_float (dict_get params "l")) as [e|lam]; simpl;
    [discriminate|].
  destruct (PrimFloat.eqb lam 0) eqn:Hl; simpl; [discriminate|].
  intros [= <- <-]. simpl. auto 10.
Qed.

Lemma finalize_no_completion w endtime s :
  done_events (stats s) = 0 -> finalize w endtime s = raise ZeroDivisionError.
Proof.
  intros H. unfold finalize. rewrite H. reflexivity.
Qed.

(** The untouched counters reach the returned dictionary as they are. *)
Lemma finalize_inv w endtime s r :
  finalize w endtime s = inr r ->
  Final.input_events r = input_events (stats s)
  /\ Final.done_events r = done_events (stats s)
  /\ Final.completed_without_queueing r = completed_without_queueing (stats s)
  /\ Final.completed_with_queueing r = completed_with_queueing (stats s)
  /\ Final.max_queue_depth r = max_queue_depth (stats s)
  /\ Final.queue_end_len r = len (queue s)
  /\ Final.events_end_len r = len (events s).
Proof.
  unfold finalize, bind.
  repeat match goal with
    | |- context [match num_truediv ?a ?b with _ => _ end] =>
        destruct (num_truediv a b); [discriminate|]
    end.
  intros [= <-]. simpl. auto 10.
Qed.

(** What [simulate] returns comes from a run that reached the [break]. *)
Lemma simulate_inv w params fuel r :
  simulate w params fuel = Some (inr r) ->
  exists p log s,
    run_ends w p (init_sim (draws w 0)) log s
    /\ finalize w (dict_get params "endtime") s = inr r.
Proof.
  unfold simulate.
  destruct (configure w params) as [e|[p s0]] eqn:Hc; [discriminate|].
  apply configure_inv in Hc as (_ & -> & _).
  destruct (loop w p fuel _) as [[e|s]|] eqn:Hl; try discriminate.
  intros [= Hf].
  destruct (loop_run_ends w p _ fuel [] _ s (run_start _ _ _) Hl) as [log He].
  exists p, log, s. auto.
Qed.

(** ** The length of the backlog against [max_queue_depth] *)

(** [max_queue_depth] is taken before the append (line 84): the backlog can
    be one longer than the recorded maximum, never more. *)
Lemma backlog_bound w p first log s :
  run_to w p (init_sim first) log s ->
  0 <= max_queue_depth (stats s)
  /\ len (queue s) <= max_queue_depth (stats s) + 1.
Proof.
  induction 1 as [|log s ev rest s' _ [IH0 IH1] Hpop Hstep].
  - simpl. unfold len. simpl. lia.
  - apply loop_body_continue in Hstep as (ev' & rest' & _ & _ & Hd).
    pose proof (len_nonneg (queue s)) as Hq0.
    destruct ev' as [now|now start]; simpl in Hd.
    + apply on_input_inv in Hd. simpl in Hd.
      destruct Hd as [(_ & Hq & ->)|(_ & ->)]; simpl.
      * unfold len. simpl. lia.
      * rewrite len_snoc. lia.
    + apply on_done_inv in Hd. simpl in Hd.
      destruct Hd as [_ [(Hq & ->)|(arrived & qs & Hq & ->)]]; simpl.
      * unfold len. simpl. lia.
      * rewrite Hq, len_cons in *.
        destruct (PrimFloat.ltb (twait p) (now - arrived)); simpl; lia.
Qed.

(** ** The claims *)

(** A horizon that lies before the first arrival: the first popped event
    ends the loop, nothing was dispatched, and the finalize step raises. *)
Lemma horizon_before_first_arrival w params fuel p s0 :
  configure w params = inr (p, s0) ->
  PrimFloat.ltb (endtime p) (draws w 0) = true ->
  simulate w params (S fuel) = Some (raise ZeroDivisionError).
Proof.
  intros Hc Hlt. unfold simulate. rewrite Hc.
  apply configure_inv in Hc as (_ & -> & _).
  simpl. unfold loop_body. simpl. rewrite Hlt. reflexivity.
Qed.

(** C1 (the code raises instead): a run whose loop ends with zero
    completions does not return sentinel values.  The first division of the
    finalize step, [stats['avg_wait_time'] /= stats['done_events']] (line
    112), raises [ZeroDivisionError], which leaves [simulate]. *)
Theorem zero_completions_raise w params fuel p s0 s :
  configure w params = inr (p, s0) ->
  loop w p fuel s0 = Some (inr s) ->
  done_events (stats s) = 0 ->
  simulate w params fuel = Some (raise ZeroDivisionError).
Proof.
  intros Hc Hl Hz. unfold simulate. rewrite Hc, Hl.
  now rewrite finalize_no_completion.
Qed.

Lemma zero_completions_raise_witness :
  exists p s0 s,
    configure two_arrivals short_horizon = inr (p, s0)
    /\ loop two_arrivals p 5 s0 = Some (inr s)
    /\ done_events (stats s) = 0
    /\ input_events (stats s) = 2
    /\ simulate two_arrivals short_horizon 5 = Some (raise ZeroDivisionError).
Proof.
  eexists _, _, _.
  assert (Hc : configure two_arrivals short_horizon
               = inr (config_of 1 1, init_sim 0.25)) by reflexivity.
  assert (Hl : loop two_arrivals (config_of 1 1) 5 (init_sim 0.25)
               = Some (inr (mkSim [Input 100.5] [0.5%float] 1 0.5
                              (mkStats 2 0 0 0 0 0 0 0 1 0 0) 3%nat)))
    by (vm_compute; reflexivity).
  split; [exact Hc|]. split; [exact Hl|].
  split; [reflexivity|]. split; [reflexivity|].
  exact (zero_completions_raise _ _ _ _ _ _ Hc Hl eq_refl).
Defined.

(** The two transitions keep [occupancy_ok]: the assertions of lines 77 and
    92 are part of the transition. *)
Lemma arrival_keeps_occupancy w p now s s' :
  occupancy_ok p s -> on_input w p now s = inr s' -> occupancy_ok p s'.
Proof.
  intros [Hb Hq] H. apply on_input_inv in H. simpl in H.
  destruct H as [(Hlt & _ & ->)|(Hge & ->)]; split; simpl;
    try lia; try congruence.
Qed.

Lemma completion_keeps_occupancy p now start s s' :
  occupancy_ok p s -> on_done p now start s = inr s' -> occupancy_ok p s'.
Proof.
  intros [Hb Hq] H. apply on_done_inv in H. simpl in H.
  destruct H as [Hso [(_ & ->)|(arrived & qs & Hqs & ->)]]; split; simpl;
    try lia; try congruence.
  intros _. rewrite Hq; [lia|]. rewrite Hqs. discriminate.
Qed.

(** C2: with a server count [c >= 0], in every state the loop reaches (at
    the head of the [while], after each dispatched event) and in the state
    it breaks in, [0 <= servers_occupied <= c] and the waiting queue is
    non-empty only when [servers_occupied = c]; the Arrival and the
    Completion transition both preserve this. *)
Theorem occupancy_invariant w p first log s :
  0 <= c p ->
  run_to w p (init_sim first) log s ->
  occupancy_ok p s
  /\ (forall now s', on_input w p now s = inr s' -> occupancy_ok p s')
  /\ (forall now start s', on_done p now start s = inr s' ->
        occupancy_ok p s')
  /\ (forall s', loop_body w p s = Continue s' -> occupancy_ok p s')
  /\ (forall s', loop_body w p s = Break s' -> occupancy_ok p s').
Proof.
  intros Hc Hr.
  assert (Hok : occupancy_ok p s).
  { apply consistent_run in Hr.
    destruct Hr as [_ _ Hlo Hhi Hbusy _ _ _ _].
    split; [lia|]. intros Hq. specialize (Hbusy Hq). lia. }
  split; [assumption|].
  split; [intros now s'; apply arrival_keeps_occupancy; assumption|].
  split; [intros now start s'; apply completion_keeps_occupancy; assumption|].
  split.
  - intros s' Hs.
    apply loop_body_continue in Hs as (ev & rest & _ & _ & Hd).
    destruct ev as [now|now start]; simpl in Hd.
    + eapply arrival_keeps_occupancy; [|eassumption]. exact Hok.
    + eapply completion_keeps_occupancy; [|eassumption]. exact Hok.
  - intros s' Hs.
    apply loop_body_break in Hs as (ev & rest & _ & _ & ->). exact Hok.
Qed.

Lemma occupancy_invariant_witness :
  exists log s,
    0 <= c (config_of 1 2)
    /\ run_to two_arrivals (config_of 1 2) (init_sim 0.25) log s
    /\ queue s = [0.5%float]
    /\ occupancy_ok (config_of 1 2) s.
Proof.
  assert (Hc : 0 <= c (config_of 1 2)) by (simpl; lia).
  assert (Ht : trace two_arrivals (config_of 1 2) 2 (init_sim 0.25)
               = Some (tl one_server_log, second_waits))
    by (vm_compute; reflexivity).
  apply trace_run_to in Ht.
  eexists _, _. split; [exact Hc|]. split; [exact Ht|].
  split; [reflexivity|].
  exact (proj1 (occupancy_invariant _ _ _ _ _ Hc Ht)).
Defined.

(** The state the loop breaks in has the counters, the queue and the
    occupancy of the state the last event was popped in. *)
Lemma run_ends_inv w p s0 log s' :
  run_ends w p s0 log s' ->
  exists s ev rest,
    run_to w p s0 log s
    /\ heappop (events s) = inr (ev, rest)
    /\ PrimFloat.ltb (endtime p) (time ev) = true
    /\ s' = set_events s rest.
Proof.
  intros (s & Hr & Hb).
  apply loop_body_break in Hb as (ev & rest & Hpop & Hgt & ->).
  exists s, ev, rest. auto.
Qed.

Lemma tally_dequeues_split p (xs : list (event * sim)) :
  tally (dequeues_within p) xs + tally (dequeues_above p) xs
  = tally dequeues xs
  /\ tally dequeues xs <= tally logged_done xs.
Proof.
  induction xs as [|[e x] xs [IH1 IH2]].
  - rewrite !tally_nil. lia.
  - rewrite !tally_cons.
    unfold dequeues_within, dequeues_above, logged_done in *.
    destruct (PrimFloat.ltb (twait p) (wait_of (e, x))).
    all: destruct e; simpl; try lia.
    all: destruct (negb (len (queue x) =? 0)); simpl; lia.
Qed.

(** C3 (as amended): at the end of every run, before the finalize step
    divides them, [wait_gt_twait] counts the dispatched completions that
    found a job waiting whose wait exceeded the threshold and
    [wait_lt_twait] those whose wait did not; their sum is the number of
    dispatched completions that found a job waiting, each counted once, and
    is at most [done_events].  Completions that found the queue empty are
    in neither counter. *)
Theorem wait_counters_partition w p first log s :
  run_ends w p (init_sim first) log s ->
  wait_gt_twait (stats s) = tally (dequeues_above p) log
  /\ wait_lt_twait (stats s) = tally (dequeues_within p) log
  /\ wait_lt_twait (stats s) + wait_gt_twait (stats s) = tally dequeues log
  /\ done_events (stats s) = tally logged_done log
  /\ wait_lt_twait (stats s) + wait_gt_twait (stats s) <= done_events (stats s).
Proof.
  intros He. apply run_ends_inv in He as (s1 & ev & rest & Hr & _ & _ & ->).
  apply accounted_run in Hr as [_ Hd Hg Hl _]. simpl in *.
  destruct (tally_dequeues_split p log). repeat split; lia.
Qed.

Lemma wait_counters_partition_witness :
  exists log s,
    run_ends two_arrivals (config_of 1 2) (init_sim 0.25) log s
    /\ wait_lt_twait (stats s) = 1
    /\ tally (dequeues_within (config_of 1 2)) log = 1
    /\ wait_lt_twait (stats s) + wait_gt_twait (stats s) = tally dequeues log.
Proof.
  assert (Ht : trace two_arrivals (config_of 1 2) 3 (init_sim 0.25)
               = Some (one_server_log, second_in_service))
    by (vm_compute; reflexivity).
  eapply trace_run_ends in Ht; [|vm_compute; reflexivity].
  eexists _, _. split; [exact Ht|].
  split; [reflexivity|]. split; [reflexivity|].
  exact (proj1 (proj2 (proj2 (wait_counters_partition _ _ _ _ _ Ht)))).
Defined.

(** C3 as stated fails: with two servers nobody waits, both jobs complete,
    and the two wait counters stay at zero. *)
Lemma wait_counters_miss_completions :
  exists p s0 s,
    configure two_arrivals two_servers = inr (p, s0)
    /\ loop two_arrivals p 10 s0 = Some (inr s)
    /\ done_events (stats s) = 2
    /\ wait_lt_twait (stats s) + wait_gt_twait (stats s) = 0
    /\ wait_lt_twait (stats s) + wait_gt_twait (stats s)
       <> done_events (stats s).
Proof.
  exists (config_of 2 2), (init_sim 0.25),
    (mkSim [] [] 0 0 (mkStats 2 2 0 0 0 2 0 0 2 0 0) 3%nat).
  split; [reflexivity|]. split; [vm_compute; reflexivity|].
  split; [reflexivity|]. split; [reflexivity|]. discriminate.
Qed.

(** C4 (as amended): at the end of every run, before the finalize step
    divides them, [served_immediately] plus the jobs that waited
    ([wait_lt_twait + wait_gt_twait]) is the number of jobs that started
    service: [done_events] plus the [servers_occupied] jobs still in service
    when the loop breaks.  It equals [done_events] exactly when no job is
    in service at that moment. *)
Theorem service_starts_balance w p first log s :
  run_ends w p (init_sim first) log s ->
  served_immediately (stats s)
    + (wait_lt_twait (stats s) + wait_gt_twait (stats s))
  = done_events (stats s) + servers_occupied s
  /\ 0 <= servers_occupied s
  /\ (served_immediately (stats s)
        + (wait_lt_twait (stats s) + wait_gt_twait (stats s))
      = done_events (stats s)
      <-> servers_occupied s = 0).
Proof.
  intros He. apply run_ends_inv in He as (s1 & ev & rest & Hr & _ & _ & ->).
  apply consistent_run in Hr as [_ _ Hlo _ _ _ Hstarts _ _]. simpl.
  repeat split; lia.
Qed.

Lemma service_starts_balance_witness :
  exists log s,
    run_ends two_arrivals (config_of 2 2) (init_sim 0.25) log s
    /\ served_immediately (stats s)
         + (wait_lt_twait (stats s) + wait_gt_twait (stats s))
       = done_events (stats s) + servers_occupied s.
Proof.
  assert (Ht : trace two_arrivals (config_of 2 2) 4 (init_sim 0.25)
               = Some ([(Done 1.5 0.5,
                         mkSim [Done 1.5 0.5; Input 100.5] [] 1 0
                           (mkStats 2 1 0 0 0 1 0 0 2 0 0) 3%nat);
                        (Done 1.25 0.25,
                         mkSim [Done 1.25 0.25; Done 1.5 0.5; Input 100.5]
                           [] 2 0 (mkStats 2 0 0 0 0 0 0 0 2 0 0) 3%nat);
                        (Input 0.5,
                         mkSim [Input 0.5; Done 1.25 0.25] [] 1 0
                           (mkStats 1 0 0 0 0 0 0 0 1 0 0) 2%nat);
                        (Input 0.25, init_sim 0.25)],
                       mkSim [Input 100.5] [] 0 0
                         (mkStats 2 2 0 0 0 2 0 0 2 0 0) 3%nat))
    by (vm_compute; reflexivity).
  eapply trace_run_ends in Ht; [|vm_compute; reflexivity].
  eexists _, _. split; [exact Ht|].
  exact (proj1 (service_starts_balance _ _ _ _ _ Ht)).
Defined.

(** C4 as stated fails: with one server and horizon 2, the job that waited
    is still in service when the loop breaks; two jobs were counted as
    started, one as completed. *)
Lemma service_starts_exceed_completions :
  exists p s0 s,
    configure two_arrivals one_server = inr (p, s0)
    /\ loop two_arrivals p 10 s0 = Some (inr s)
    /\ served_immediately (stats s) = 1
    /\ wait_lt_twait (stats s) + wait_gt_twait (stats s) = 1
    /\ done_events (stats s) = 1
    /\ served_immediately (stats s)
         + (wait_lt_twait (stats s) + wait_gt_twait (stats s))
       <> done_events (stats s).
Proof.
  exists (config_of 1 2), (init_sim 0.25),
    (mkSim [Input 100.5] [] 1 1.25
       (mkStats 2 1 0 0 0.75 1 0.75 0 1 0 1) 3%nat).
  split; [reflexivity|]. split; [vm_compute; reflexivity|].
  split; [reflexivity|]. split; [reflexivity|].
  split; [reflexivity|]. discriminate.
Qed.

(** C5 (the code breaks the upper bound): the time-weighted average queue
    depth is not bounded by the [max_queue_depth] statistic.  With one
    server, service time 1 and horizon 2, a job waits from 0.5 to 1.25, so
    the returned average is 0.75 / 2 = 0.375, while [max_queue_depth],
    taken from [len(queue)] before the append (line 84), is still 0. *)
Theorem avg_queue_depth_exceeds_max :
  exists r,
    simulate two_arrivals one_server 10 = Some (inr r)
    /\ Final.avg_queue_depth r = 0.375%float
    /\ Final.max_queue_depth r = 0
    /\ PrimFloat.leb 0 (Final.avg_queue_depth r) = true
    /\ PrimFloat.leb (Final.avg_queue_depth r)
         (float_of_Z (Final.max_queue_depth r)) = false.
Proof.
  eexists. split; [vm_compute; reflexivity|].
  repeat split; reflexivity.
Qed.

(** With a server count [c <= 0] no arrival is ever served: every
    dispatched event is an arrival that joins the queue. *)
Lemma no_server_run w p first log s :
  c p <= 0 ->
  run_to w p (init_sim first) log s ->
  servers_occupied s = 0
  /\ done_events (stats s) = 0
  /\ served_immediately (stats s) = 0
  /\ len (queue s) = input_events (stats s).
Proof.
  intros Hc Hr.
  assert (H : servers_occupied s = 0 /\ done_events (stats s) = 0
              /\ served_immediately (stats s) = 0).
  { induction Hr as [|log s ev rest s' Hr (IHo & IHd & IHs) Hpop Hstep].
    - auto.
    - apply loop_body_continue in Hstep as (ev' & rest' & _ & _ & Hdisp).
      destruct ev' as [now|now start]; simpl in Hdisp.
      + apply on_input_inv in Hdisp. simpl in Hdisp.
        destruct Hdisp as [(Hlt & _ & ->)|(_ & ->)]; simpl; [lia|auto].
      + apply on_done_inv in Hdisp. simpl in Hdisp. lia. }
  destruct H as (Ho & Hd & Hs).
  apply consistent_run in Hr as [_ _ _ _ _ Hjobs _ _ _].
  repeat split; lia.
Qed.

(** C6 (as amended): for every configuration whose five parameters have
    the requested types and whose [u] is not zero (so that line 45 is
    reached, with the rate converted to the float [lam]): a rate of zero is
    detected before the event loop starts, as the [ZeroDivisionError] that
    [random.expovariate] raises at line 45.  No other rate, negative ones
    included, and no server count, non-positive ones included, is
    detected: the values are used as given, never clamped, and the loop is
    entered, its first iteration raising nothing.  With [c <= 0] no
    iteration raises, every dispatched arrival joins the queue and none is
    served. *)
Theorem config_errors w params dv lam :
  well_typed params = true ->
  num_truediv (PyInt 1) (dict_get params "u") = inr dv ->
  as_float (dict_get params "l") = inr lam ->
  let p := mkConfig lam dv (int_of (dict_get params "c"))
             (threshold (dict_get params "twait"))
             (threshold (dict_get params "endtime")) in
  let s0 := init_sim (draws w 0) in
  (PrimFloat.eqb lam 0 = true ->
   configure w params = inl ZeroDivisionError
   /\ forall fuel, simulate w params fuel = Some (inl ZeroDivisionError))
  /\ (PrimFloat.eqb lam 0 = false ->
      configure w params = inr (p, s0)
      /\ (forall fuel,
             simulate w params fuel
             = match loop w p fuel s0 with
               | None => None
               | Some (inl e) => Some (inl e)
               | Some (inr s) =>
                   Some (finalize w (dict_get params "endtime") s)
               end)
      /\ (forall e, loop_body w p s0 <> Raise e)
      /\ (c p <= 0 ->
          forall log s,
            run_to w p s0 log s ->
            (forall e, loop_body w p s <> Raise e)
            /\ servers_occupied s = 0
            /\ done_events (stats s) = 0
            /\ served_immediately (stats s) = 0
            /\ len (queue s) = input_events (stats s))).
Proof.
  intros Hw Hd Hlam p s0.
  assert (Hc : configure w params
               = (lambd <- ret lam ;;
                  first <- expovariate w lambd 0 ;;
                  ret (p, init_sim first))).
  { unfold configure. rewrite !get_param_spec.
    unfold well_typed in Hw. simpl forallb in Hw.
    repeat (apply andb_prop in Hw as [?H Hw]).
    repeat match goal with
      | H : param_ok _ _ = true |- _ => rewrite H; clear H
      end.
    simpl bind at 1. simpl bind at 1. rewrite Hd. simpl bind at 1.
    simpl bind at 1. simpl bind at 1. simpl bind at 1.
    rewrite Hlam. reflexivity. }
  unfold expovariate in Hc. simpl in Hc.
  split; intros Hz; rewrite Hz in Hc; simpl in Hc.
  - split; [exact Hc|]. intros fuel. unfold simulate. now rewrite Hc.
  - split; [exact Hc|].
    split; [intros fuel; unfold simulate; now rewrite Hc|].
    split.
    + intros e. apply consistent_no_raise; [|exact Hz].
      apply consistent_init.
    + intros Hle log s Hr. split.
      * intros e. apply consistent_no_raise; [|exact Hz].
        eapply consistent_run; eassumption.
      * eapply no_server_run; eassumption.
Qed.

Lemma config_errors_witness :
  (well_typed no_server = true
   /\ num_truediv (PyInt 1) (dict_get no_server "u") = inr 1%float
   /\ as_float (dict_get no_server "l") = inr 1%float
   /\ PrimFloat.eqb 1 0 = false
   /\ configure two_arrivals no_server = inr (config_of 0 2, init_sim 0.25))
  /\ (well_typed zero_rate = true
      /\ as_float (dict_get zero_rate "l") = inr 0%float
      /\ PrimFloat.eqb 0 0 = true
      /\ configure two_arrivals zero_rate = inl ZeroDivisionError).
Proof.
  split.
  - repeat (split; [reflexivity|]).
    exact (proj1 (proj2 (config_errors two_arrivals no_server 1 1
                           eq_refl eq_refl eq_refl) eq_refl)).
  - repeat (split; [reflexivity|]).
    exact (proj1 (proj1 (config_errors two_arrivals zero_rate 1 0
                           eq_refl eq_refl eq_refl) eq_refl)).
Defined.

(** C6 as stated fails: a server count of zero is accepted, the loop is
    entered and dispatches the arrivals, and the only failure is the
    [ZeroDivisionError] of the finalize step after the loop. *)
Lemma zero_servers_enter_loop :
  exists p s0 s1,
    configure two_arrivals no_server = inr (p, s0)
    /\ c p = 0
    /\ loop_body two_arrivals p s0 = Continue s1
    /\ input_events (stats s1) = 1
    /\ queue s1 = [0.25%float]
    /\ simulate two_arrivals no_server 10 = Some (raise ZeroDivisionError).
Proof.
  exists (config_of 0 2), (init_sim 0.25),
    (mkSim [Input 0.5] [0.25%float] 0 0.25
       (mkStats 1 0 0 0 0 0 0 0 0 0 0) 2%nat).
  split; [reflexivity|]. split; [reflexivity|].
  split; [vm_compute; reflexivity|].
  split; [reflexivity|]. split; [reflexivity|]. vm_compute. reflexivity.
Qed.

(** A negative rate is accepted as well: [random.expovariate] then returns
    non-positive draws and the loop runs backwards in time. *)
Lemma negative_rate_accepted :
  exists s1,
    configure backwards (params_of (-1) 1 1 1 2)
    = inr (mkConfig (-1) 1 1 1 2, init_sim (-0.25))
    /\ loop_body backwards (mkConfig (-1) 1 1 1 2) (init_sim (-0.25))
       = Continue s1
    /\ events s1 = [Input (-0.5); Done 0.75 (-0.25)].
Proof.
  eexists. split; [reflexivity|]. split; [vm_compute; reflexivity|].
  reflexivity.
Qed.

(** C7: in every state the loop reaches, and in the state it breaks in, the
    arrival count [input_events] is at least the completion count
    [done_events]: the difference is the number of jobs in flight, those in
    service plus those waiting.  The two counts are equal exactly when no
    job is in flight: no server is occupied and nobody waits (and then no
    completion is pending in [events]). *)
Theorem arrivals_ge_completions w p first log s :
  run_to w p (init_sim first) log s ->
  (done_events (stats s) <= input_events (stats s)
   /\ input_events (stats s) - done_events (stats s)
      = servers_occupied s + len (queue s)
   /\ (input_events (stats s) = done_events (stats s)
       <-> servers_occupied s = 0 /\ queue s = [])
   /\ tally is_done (events s) = servers_occupied s)
  /\ (forall s',
        loop_body w p s = Break s' ->
        done_events (stats s') <= input_events (stats s')
        /\ input_events (stats s') - done_events (stats s')
           = servers_occupied s' + len (queue s')
        /\ (input_events (stats s') = done_events (stats s')
            <-> servers_occupied s' = 0 /\ queue s' = [])
        /\ tally is_done (events s') <= servers_occupied s').
Proof.
  intros Hr.
  apply consistent_run in Hr as [_ Hdn Hlo _ _ Hjobs _ _ _].
  pose proof (len_nonneg (queue s)) as Hq.
  assert (Hflight : input_events (stats s) = done_events (stats s)
                    <-> servers_occupied s = 0 /\ queue s = []).
  { split.
    - intros He. split; [lia|]. apply len_zero. lia.
    - intros [Ho Hq0]. apply len_zero in Hq0. lia. }
  split.
  - repeat split; try lia; apply Hflight; assumption.
  - intros s' Hb.
    apply loop_body_break in Hb as (ev & rest & Hpop & _ & ->). simpl.
    split; [lia|]. split; [lia|]. split; [exact Hflight|].
    destruct (events s) as [|x xs]; [discriminate|].
    injection Hpop as -> ->. rewrite tally_cons in Hdn.
    destruct (is_done ev); lia.
Qed.

Lemma arrivals_ge_completions_witness :
  exists log s,
    run_to two_arrivals (config_of 1 2) (init_sim 0.25) log s
    /\ input_events (stats s) = 2
    /\ done_events (stats s) = 1
    /\ done_events (stats s) <= input_events (stats s).
Proof.
  assert (Ht : trace two_arrivals (config_of 1 2) 3 (init_sim 0.25)
               = Some (one_server_log, second_in_service))
    by (vm_compute; reflexivity).
  apply trace_run_to in Ht.
  eexists _, _. split; [exact Ht|].
  split; [reflexivity|]. split; [reflexivity|].
  exact (proj1 (proj1 (arrivals_ge_completions _ _ _ _ _ Ht))).
Defined.

(** C8: the first popped event whose time exceeds the horizon ends the loop
    and is not dispatched: the loop breaks in the state it was popped in,
    with the queue, the occupancy, [last_queue_update], every statistic and
    the generator untouched (only the popped event has left [events]).
    Every dispatched event was popped at or before the horizon, and
    [done_events] and [input_events] count exactly the dispatched
    completions and arrivals, so a completion that lies beyond the horizon
    is in no statistic. *)
Theorem horizon_cutoff w p first :
  (forall s ev rest,
      heappop (events s) = inr (ev, rest) ->
      PrimFloat.ltb (endtime p) (time ev) = true ->
      loop_body w p s = Break (set_events s rest)
      /\ (forall fuel, loop w p (S fuel) s = Some (ret (set_events s rest)))
      /\ stats (set_events s rest) = stats s
      /\ queue (set_events s rest) = queue s
      /\ servers_occupied (set_events s rest) = servers_occupied s
      /\ last_queue_update (set_events s rest) = last_queue_update s
      /\ drawn (set_events s rest) = drawn s)
  /\ (forall log s,
        run_to w p (init_sim first) log s ->
        Forall (within_horizon p) log
        /\ done_events (stats s) = tally logged_done log
        /\ input_events (stats s) = tally logged_input log)
  /\ (forall log s',
        run_ends w p (init_sim first) log s' ->
        Forall (within_horizon p) log
        /\ done_events (stats s') = tally logged_done log
        /\ input_events (stats s') = tally logged_input log).
Proof.
  assert (Hlog : forall log s,
             run_to w p (init_sim first) log s ->
             Forall (within_horizon p) log
             /\ done_events (stats s) = tally logged_done log
             /\ input_events (stats s) = tally logged_input log).
  { intros log s Hr. apply accounted_run in Hr as [Hi Hd _ _ Hh].
    simpl in *. repeat split; [assumption|lia|lia]. }
  split; [|split].
  - intros s ev rest Hpop Hgt.
    assert (Hb : loop_body w p s = Break (set_events s rest)).
    { unfold loop_body. rewrite Hpop.
      destruct (events s) as [|x xs]; [discriminate|].
      replace (len (x :: xs) >? 0) with true
        by (symmetry; apply Z.gtb_lt; rewrite len_cons;
            pose proof (len_nonneg xs); lia).
      simpl. now rewrite Hgt. }
    split; [assumption|].
    split; [intros fuel; simpl; now rewrite Hb|].
    repeat split.
  - exact Hlog.
  - intros log s' He.
    apply run_ends_inv in He as (s & ev & rest & Hr & _ & _ & ->).
    simpl. apply Hlog. assumption.
Qed.

Lemma horizon_cutoff_witness :
  exists s' log,
    heappop (events second_in_service) = inr (Done 2.25 0.5, [Input 100.5])
    /\ PrimFloat.ltb (endtime (config_of 1 2)) (time (Done 2.25 0.5)) = true
    /\ loop_body two_arrivals (config_of 1 2)
         second_in_service
       = Break s'
    /\ done_events (stats s') = 1
    /\ run_ends two_arrivals (config_of 1 2) (init_sim 0.25) log s'
    /\ done_events (stats s') = tally logged_done log.
Proof.
  assert (Ht : trace two_arrivals (config_of 1 2) 3 (init_sim 0.25)
               = Some (one_server_log, second_in_service))
    by (vm_compute; reflexivity).
  pose proof (horizon_cutoff two_arrivals (config_of 1 2) 0.25)
    as (Hcut & _ & Hend).
  destruct (Hcut second_in_service
              (Done 2.25 0.5) [Input 100.5] eq_refl eq_refl) as (Hb & _).
  pose proof (trace_run_ends _ _ _ _ _ _ _ Ht Hb) as He.
  eexists _, _. split; [reflexivity|]. split; [reflexivity|].
  split; [exact Hb|]. split; [reflexivity|]. split; [exact He|].
  exact (proj1 (proj2 (Hend _ _ He))).
Defined.

(** C9: events are ordered as the tuples [(time, kind, payload)], and the
    kind code of an arrival, 0, is less than that of a completion, 1.  In
    every state the loop reaches, the event [heappop] returns is a least
    tuple among the pending ones: no pending event is less than it, and
    [heappush] keeps every scheduled event pending.  So when an arrival is
    pending whose timestamp is [==] to that of the returned event, the
    returned event is an arrival: the arrival is the lesser tuple of the
    two, and a completion with that timestamp is dispatched after it. *)
Theorem arrival_before_completion w p first log s ev rest :
  run_to w p (init_sim first) log s ->
  heappop (events s) = inr (ev, rest) ->
  ev_input < ev_done
  /\ (forall x, In x (events s) -> tuple_lt x ev = false)
  /\ (forall heap item, Permutation (item :: heap) (heappush heap item))
  /\ (forall t,
        In (Input t) (events s) ->
        PrimFloat.eqb t (time ev) = true ->
        is_input ev = true
        /\ forall start,
             tuple_lt (Input t) (Done (time ev) start) = true
             /\ tuple_lt (Done (time ev) start) (Input t) = false).
Proof.
  intros Hr Hpop.
  apply consistent_run in Hr as [_ _ _ _ _ _ _ _ Hsorted].
  destruct (heappop_least _ _ _ Hsorted Hpop) as [_ Hleast].
  destruct (events s) as [|x xs]; [discriminate|].
  injection Hpop as -> ->.
  rewrite Forall_forall in Hleast.
  assert (Hmin : forall x, In x (ev :: rest) -> tuple_lt x ev = false).
  { intros x [<-|Hx].
    - destruct (tuple_lt ev ev) eqn:E; [|reflexivity].
      now rewrite (tuple_lt_asym _ _ E) in E.
    - apply Hleast. assumption. }
  split; [reflexivity|]. split; [exact Hmin|].
  split; [exact heappush_perm|].
  intros t Hin Heq.
  pose proof (fun start => tuple_lt_input_done t (time ev) start Heq) as Hlt.
  split.
  - destruct ev as [now|now start]; [reflexivity|].
    specialize (Hmin _ Hin). simpl in Hlt. rewrite Hlt in Hmin. discriminate.
  - intros start. split; [apply Hlt|]. apply tuple_lt_asym, Hlt.
Qed.

Lemma arrival_before_completion_witness :
  (run_to simultaneous (config_of 1 2) (init_sim 0.25)
     [(Input 0.25, init_sim 0.25)] tie_pending
   /\ events tie_pending = [Input 1.25; Done 1.25 0.25]
   /\ heappop (events tie_pending) = inr (Input 1.25, [Done 1.25 0.25])
   /\ In (Input 1.25) (events tie_pending)
   /\ PrimFloat.eqb 1.25 (time (Input 1.25)) = true
   /\ is_input (Input 1.25) = true)
  /\ (run_to simultaneous (config_of 1 2) (init_sim 0.25)
        [(Input 1.25, tie_pending); (Input 0.25, init_sim 0.25)] tie_resolved
      /\ heappop (events tie_resolved) = inr (Done 1.25 0.25, [Input 101.25])
      /\ forall x, In x (events tie_resolved) ->
                   tuple_lt x (Done 1.25 0.25) = false).
Proof.
  assert (H1 : trace simultaneous (config_of 1 2) 1 (init_sim 0.25)
               = Some ([(Input 0.25, init_sim 0.25)], tie_pending))
    by (vm_compute; reflexivity).
  assert (H2 : trace simultaneous (config_of 1 2) 2 (init_sim 0.25)
               = Some ([(Input 1.25, tie_pending);
                        (Input 0.25, init_sim 0.25)], tie_resolved))
    by (vm_compute; reflexivity).
  apply trace_run_to in H1, H2.
  split.
  - split; [exact H1|]. split; [reflexivity|]. split; [reflexivity|].
    split; [left; reflexivity|]. split; [reflexivity|].
    exact (proj1 (proj2 (proj2 (proj2
             (arrival_before_completion _ _ _ _ _ _ _ H1 eq_refl)))
             1.25%float (or_introl eq_refl) eq_refl)).
  - split; [exact H2|]. split; [reflexivity|].
    exact (proj1 (proj2
             (arrival_before_completion _ _ _ _ _ _ _ H2 eq_refl))).
Defined.

(** C10: in the dictionary [simulate] returns, [completed_without_queueing]
    and [completed_with_queueing] are 0: they are initialised to 0 and no
    transition of the loop, nor the finalize step, assigns them. *)
Theorem unused_counters_zero w params fuel r :
  simulate w params fuel = Some (inr r) ->
  Final.completed_without_queueing r = 0
  /\ Final.completed_with_queueing r = 0.
Proof.
  intros H. apply simulate_inv in H as (p & log & s & He & Hf).
  apply finalize_inv in Hf as (_ & _ & -> & -> & _).
  apply run_ends_inv in He as (s1 & ev & rest & Hr & _ & _ & ->).
  apply consistent_run in Hr as [_ _ _ _ _ _ _ Hz _]. exact Hz.
Qed.

Lemma unused_counters_zero_witness :
  exists r,
    simulate two_arrivals one_server 10 = Some (inr r)
    /\ Final.done_events r = 1
    /\ Final.completed_without_queueing r = 0
    /\ Final.completed_with_queueing r = 0.
Proof.
  assert (H : simulate two_arrivals one_server 10
              = Some (inr (Final.mk 2 1 0 0 0.75 1 0.375 0 1 0 1 0 0 1)))
    by (vm_compute; reflexivity).
  eexists. split; [exact H|]. split; [reflexivity|].
  exact (unused_counters_zero _ _ _ _ H).
Defined.

(** * Further properties of the code *)

(** ** get_param and the configuration *)

Lemma dict_get_absent params name :
  (forall v, ~ In (name, v) params) -> dict_get params name = PyNone.
Proof.
  induction params as [|[k v] rest IH]; intros Habs; simpl.
  - reflexivity.
  - destruct (String.eqb_spec k name) as [->|Hne].
    + exfalso. apply (Habs v). left. reflexivity.
    + apply IH. intros v' Hin. apply (Habs v'). right. assumption.
Qed.

(** X1: [get_param] either returns the value stored under the name, which
    is then not [None] and has the requested type, or writes the message
    naming the parameter and exits with status 1; it does the latter in
    particular when the dictionary has no such key. *)
Theorem get_param_outcome params name typ :
  (forall v, get_param params name typ = inr v ->
             v = dict_get params name /\ v <> PyNone
             /\ isinstance v typ = true)
  /\ (forall e, get_param params name typ = inl e ->
                e = SystemExit 1 (param_error name))
  /\ ((forall v, ~ In (name, v) params) ->
      get_param params name typ = inl (SystemExit 1 (param_error name))).
Proof.
  repeat split.
  - unfold get_param in H.
    destruct (is_None (dict_get params name)
              || negb (isinstance (dict_get params name) typ));
      [discriminate|]. now injection H.
  - unfold get_param in H.
    destruct (dict_get params name) eqn:E; simpl in H;
      try discriminate;
      destruct (isinstance _ typ); simpl in H; try discriminate;
      injection H as <-; discriminate.
  - unfold get_param in H.
    destruct (dict_get params name) eqn:E; simpl in H;
      try discriminate;
      destruct (isinstance _ typ) eqn:I; simpl in H; try discriminate;
      injection H as <-; assumption.
  - intros e. unfold get_param.
    destruct (is_None (dict_get params name)
              || negb (isinstance (dict_get params name) typ));
      [|discriminate]. now intros [= <-].
  - intros Habs. unfold get_param.
    now rewrite (dict_get_absent _ _ Habs).
Qed.

Lemma get_param_outcome_witness :
  (forall v, ~ In ("c"%string, v) [("l"%string, PyFloat 1)])
  /\ get_param [("l"%string, PyFloat 1)] "c" TInt
     = inl (SystemExit 1 (param_error "c")).
Proof.
  assert (Habs : forall v, ~ In ("c"%string, v) [("l"%string, PyFloat 1)]).
  { intros v [H|[]]. discriminate H. }
  split; [exact Habs|].
  exact (proj2 (proj2 (get_param_outcome [("l"%string, PyFloat 1)] "c" TInt))
           Habs).
Defined.

(** [1/u] for a number [u] raises exactly when [u] is zero. *)
Lemma one_over_cases u :
  is_number u = true ->
  if is_zero u then num_truediv (PyInt 1) u = inl ZeroDivisionError
  else exists dv, num_truediv (PyInt 1) u = inr dv.
Proof.
  assert (Hint : forall z,
             if z =? 0 then int_truediv 1 z = inl ZeroDivisionError
             else exists dv, int_truediv 1 z = inr dv).
  { intros z. destruct (Z.eqb_spec z 0) as [->|Hz]; [reflexivity|].
    apply int_truediv_small; [assumption|].
    assert (1 < 2 ^ 1023) by (apply Z.pow_gt_1; lia).
    change (Z.abs 1) with 1. nia. }
  destruct u as [|b|z|f|s]; simpl; try discriminate; intros _.
  - exact (Hint (if b then 1 else 0)).
  - exact (Hint z).
  - unfold num_truediv.
    change (as_float (PyInt 1)) with (@inr exn float 1%float).
    unfold bind, as_float, truediv, ret, raise.
    destruct (PrimFloat.eqb f 0); eauto.
Qed.

Lemma param_ok_number params name :
  param_ok params (name, TIntOrFloat) = true ->
  is_number (dict_get params name) = true.
Proof.
  unfold param_ok. simpl. destruct (dict_get params name); now simpl.
Qed.

(** X2: [simulate] gets past its parameter block (lines 37-45) exactly when
    the five parameters are present with the requested types, [u] is not
    zero, and [l] converts to a float that is not zero; the parameters
    are then taken as given, the service time is [1/u], and the first
    arrival is pending at the first draw with all counters at zero.
    Otherwise the first step that fails decides the exception: the exit
    of [get_param] naming [l], then [u]; [ZeroDivisionError] for a zero
    [u]; the exit naming [c], [twait], [endtime]; and at line 45
    [OverflowError] for an [int] rate too large for a float or
    [ZeroDivisionError] for a zero rate. *)
Theorem configure_accepts_iff w params :
  let ok name typ := param_ok params (name, typ) in
  let u := dict_get params "u" in
  let rate := as_float (dict_get params "l") in
  let fails name := configure w params
                    = inl (SystemExit 1 (param_error name)) in
  (forall p s0,
      configure w params = inr (p, s0)
      <-> well_typed params = true
          /\ is_zero u = false
          /\ exists lam dv,
               rate = inr lam
               /\ PrimFloat.eqb lam 0 = false
               /\ num_truediv (PyInt 1) u = inr dv
               /\ p = mkConfig lam dv (int_of (dict_get params "c"))
                        (threshold (dict_get params "twait"))
                        (threshold (dict_get params "endtime"))
               /\ s0 = init_sim (draws w 0))
  /\ (ok "l"%string TIntOrFloat = false -> fails "l"%string)
  /\ (ok "l"%string TIntOrFloat = true ->
      (ok "u"%string TIntOrFloat = false -> fails "u"%string)
      /\ (ok "u"%string TIntOrFloat = true ->
          (is_zero u = true -> configure w params = inl ZeroDivisionError)
          /\ (is_zero u = false ->
              (ok "c"%string TInt = false -> fails "c"%string)
              /\ (ok "c"%string TInt = true ->
                  (ok "twait"%string TIntOrFloat = false ->
                   fails "twait"%string)
                  /\ (ok "twait"%string TIntOrFloat = true ->
                      (ok "endtime"%string TIntOrFloat = false ->
                       fails "endtime"%string)
                      /\ (ok "endtime"%string TIntOrFloat = true ->
                          (rate = inl OverflowError ->
                           configure w params = inl OverflowError)
                          /\ (forall lam,
                                 rate = inr lam ->
                                 PrimFloat.eqb lam 0 = true ->
                                 configure w params
                                 = inl ZeroDivisionError))))))).
Proof.
  intros ok u rate fails. subst ok u rate fails.
  unfold configure, well_typed, expovariate. simpl forallb.
  rewrite !get_param_spec.
  destruct (param_ok params ("l"%string, TIntOrFloat)) eqn:Ol; simpl bind.
  2:{ split; [|split; [reflexivity|discriminate]].
      intros p s0. split; [discriminate|intros [? _]; discriminate]. }
  destruct (param_ok params ("u"%string, TIntOrFloat)) eqn:Ou; simpl bind.
  2:{ split; [|split; [discriminate|intros _; split;
                                      [reflexivity|discriminate]]].
      intros p s0. split; [discriminate|intros [? _]; discriminate]. }
  pose proof (one_over_cases _ (param_ok_number _ _ Ou)) as Hu.
  destruct (is_zero (dict_get params "u")) eqn:Zu.
  { rewrite Hu. simpl bind.
    split; [|split; [discriminate|intros _; split; [discriminate|intros _;
               split; [reflexivity|discriminate]]]].
    intros p s0. split; [discriminate|intros (_ & ? & _); discriminate]. }
  destruct Hu as [dv Hdv]. rewrite Hdv. simpl bind.
  destruct (param_ok params ("c"%string, TInt)) eqn:Oc; simpl bind.
  2:{ split; [|split; [discriminate|intros _; split; [discriminate|intros _;
               split; [discriminate|intros _; split;
                                      [reflexivity|discriminate]]]]].
      intros p s0. split; [discriminate|intros [? _]; discriminate]. }
  destruct (param_ok params ("twait"%string, TIntOrFloat)) eqn:Ot;
    simpl bind.
  2:{ split; [|split; [discriminate|intros _; split; [discriminate|intros _;
               split; [discriminate|intros _; split; [discriminate|intros _;
               split; [reflexivity|discriminate]]]]]].
      intros p s0. split; [discriminate|intros [? _]; discriminate]. }
  destruct (param_ok params ("endtime"%string, TIntOrFloat)) eqn:Oe;
    simpl bind.
  2:{ split; [|split; [discriminate|intros _; split; [discriminate|intros _;
               split; [discriminate|intros _; split; [discriminate|intros _;
               split; [discriminate|intros _; split;
                                      [reflexivity|discriminate]]]]]]].
      intros p s0. split; [discriminate|intros [? _]; discriminate]. }
  split.
  - intros p s0.
    destruct (as_float (dict_get params "l")) as [e|lam]; simpl bind.
    { split; [discriminate|].
      intros (_ & _ & lam & dv' & ? & _). discriminate. }
    destruct (PrimFloat.eqb lam 0) eqn:Zl; simpl bind.
    { split; [discriminate|].
      intros (_ & _ & lam' & dv' & [= <-] & ? & _). congruence. }
    split.
    + intros [= <- <-]. repeat split. exists lam, dv. auto 10.
    + intros (_ & _ & lam' & dv' & [= <-] & _ & [= <-] & -> & ->).
      reflexivity.
  - split; [discriminate|]. intros _.
    split; [discriminate|]. intros _.
    split; [discriminate|]. intros _.
    split; [discriminate|]. intros _.
    split; [discriminate|]. intros _.
    split; [discriminate|]. intros _.
    split.
    + intros ->. reflexivity.
    + intros lam Hr Hz. rewrite Hr. simpl bind. rewrite Hz. reflexivity.
Qed.

Lemma configure_accepts_iff_witness :
  well_typed one_server = true
  /\ is_zero (dict_get one_server "u") = false
  /\ configure two_arrivals one_server = inr (config_of 1 2, init_sim 0.25)
  /\ param_ok [("l"%string, PyFloat 1); ("u"%string, PyFloat 1);
               ("c"%string, PyFloat 1)] ("c"%string, TInt) = false
  /\ configure two_arrivals [("l"%string, PyFloat 1); ("u"%string, PyFloat 1);
                             ("c"%string, PyFloat 1)]
     = inl (SystemExit 1 (param_error "c")).
Proof.
  split; [reflexivity|]. split; [reflexivity|]. split.
  - pose proof (configure_accepts_iff two_arrivals one_server) as H.
    cbv zeta in H. destruct H as [H _]. apply H.
    split; [reflexivity|]. split; [reflexivity|].
    exists 1%float, 1%float. repeat split; reflexivity.
  - split; [reflexivity|].
    pose proof (configure_accepts_iff two_arrivals
                  [("l"%string, PyFloat 1); ("u"%string, PyFloat 1);
                   ("c"%string, PyFloat 1)]) as H.
    cbv zeta in H. destruct H as (_ & _ & H).
    destruct (H eq_refl) as [_ H1]. destruct (H1 eq_refl) as [_ H2].
    destruct (H2 eq_refl) as [H3 _]. exact (H3 eq_refl).
Defined.

(** ** What [simulate] raises and what it returns *)

Lemma finalize_raises w endtime s e :
  finalize w endtime s = inl e ->
  e = ZeroDivisionError \/ e = OverflowError.
Proof.
  unfold finalize, bind.
  repeat match goal with
    | |- context [match num_truediv ?a ?b with _ => _ end] =>
        let E := fresh "E" in
        destruct (num_truediv a b) eqn:E;
        [intros [= <-]; eapply num_truediv_raises; eassumption|]
    end.
  discriminate.
Qed.

(** X3: once the parameter block has passed, the only exceptions that can
    leave [simulate] are those of the divisions of the finalize step
    (lines 112-118): [ZeroDivisionError], or [OverflowError] for an [int]
    too large for a float.  The loop itself has then run to its [break]:
    none of the assertions of lines 68, 77 and 92 has failed and
    [heappop] never found [events] empty. *)
Theorem only_finalize_raises w params fuel p s0 e :
  configure w params = inr (p, s0) ->
  simulate w params fuel = Some (inl e) ->
  (e = ZeroDivisionError \/ e = OverflowError)
  /\ exists s, loop w p fuel s0 = Some (inr s)
               /\ finalize w (dict_get params "endtime") s = inl e.
Proof.
  intros Hc Hs. unfold simulate in Hs. rewrite Hc in Hs.
  apply configure_inv in Hc as (_ & -> & Hl & _).
  destruct (loop w p fuel (init_sim (draws w 0))) as [[e1|s]|] eqn:Hloop;
    try discriminate.
  - exfalso.
    eapply (loop_raises_nothing w p (draws w 0) [] _ fuel e1 Hl);
      [constructor|exact Hloop].
  - injection Hs as Hf. split; [eapply finalize_raises; exact Hf|].
    exists s. auto.
Qed.

Lemma only_finalize_raises_witness :
  configure two_arrivals short_horizon = inr (config_of 1 1, init_sim 0.25)
  /\ simulate two_arrivals short_horizon 5 = Some (inl ZeroDivisionError)
  /\ (ZeroDivisionError = ZeroDivisionError
      \/ ZeroDivisionError = OverflowError).
Proof.
  assert (Hc : configure two_arrivals short_horizon
               = inr (config_of 1 1, init_sim 0.25)) by reflexivity.
  assert (Hs : simulate two_arrivals short_horizon 5
               = Some (inl ZeroDivisionError)) by (vm_compute; reflexivity).
  split; [exact Hc|]. split; [exact Hs|].
  exact (proj1 (only_finalize_raises _ _ _ _ _ _ Hc Hs)).
Defined.

Lemma len_events_split evs : len evs = tally is_input evs + tally is_done evs.
Proof.
  induction evs as [|e evs IH].
  - reflexivity.
  - rewrite len_cons, !tally_cons, IH. destruct e; simpl; lia.
Qed.

(** At the [break], the events left are one per occupied server. *)
Lemma events_left_at_break w p first log s :
  run_ends w p (init_sim first) log s -> len (events s) = servers_occupied s.
Proof.
  intros He. apply run_ends_inv in He as (s1 & ev & rest & Hr & Hpop & _ & ->).
  apply consistent_run in Hr as [Hin Hdn _ _ _ _ _ _ _]. simpl.
  destruct (events s1) as [|x xs]; [discriminate|].
  injection Hpop as -> ->.
  rewrite tally_cons in Hin, Hdn. rewrite len_events_split.
  destruct ev; simpl in *; lia.
Qed.

(** X4: in every dictionary [simulate] returns, the arrivals are accounted
    for: [input_events = done_events + events_end_len + queue_end_len],
    where [events_end_len], the events left when the loop broke, is the
    number of jobs in service then and is at most the server count [c] (0
    when [c] is negative).  At least one job has completed and no count is
    negative. *)
Theorem returned_counts_balance w params fuel r :
  simulate w params fuel = Some (inr r) ->
  Final.input_events r
  = Final.done_events r + Final.events_end_len r + Final.queue_end_len r
  /\ 1 <= Final.done_events r
  /\ 0 <= Final.events_end_len r <= Z.max 0 (int_of (dict_get params "c"))
  /\ 0 <= Final.queue_end_len r.
Proof.
  intros H.
  assert (Hc : exists p s0, configure w params = inr (p, s0)).
  { unfold simulate in H.
    destruct (configure w params) as [e|[p s0]]; [discriminate|eauto]. }
  destruct Hc as (p & s0 & Hc).
  unfold simulate in H. rewrite Hc in H.
  apply configure_inv in Hc as (_ & -> & _ & _ & Hcp & _).
  destruct (loop w p fuel _) as [[e|s]|] eqn:Hl; try discriminate.
  injection H as Hf.
  destruct (loop_run_ends w p _ fuel [] _ s (run_start _ _ _) Hl) as [log He].
  pose proof (events_left_at_break _ _ _ _ _ He) as Hev.
  pose proof (finalize_inv _ _ _ _ Hf) as (-> & -> & _ & _ & _ & -> & ->).
  assert (Hd : done_events (stats s) <> 0).
  { intros Hz. rewrite (finalize_no_completion _ _ _ Hz) in Hf. discriminate. }
  apply run_ends_inv in He as (s1 & ev & rest & Hr & _ & _ & ->).
  pose proof (accounted_run _ _ _ _ _ Hr) as [_ Hacc _ _ _].
  pose proof (tally_nonneg logged_done log).
  apply consistent_run in Hr as [_ _ Hlo Hhi _ Hjobs _ _ _].
  simpl in *. pose proof (len_nonneg (queue s1)).
  rewrite Hev, <- Hcp. repeat split; lia.
Qed.

Lemma returned_counts_balance_witness :
  exists r,
    simulate two_arrivals one_server 10 = Some (inr r)
    /\ Final.input_events r = 2
    /\ Final.events_end_len r = 1
    /\ Final.input_events r
       = Final.done_events r + Final.events_end_len r + Final.queue_end_len r.
Proof.
  assert (H : simulate two_arrivals one_server 10
              = Some (inr (Final.mk 2 1 0 0 0.75 1 0.375 0 1 0 1 0 0 1)))
    by (vm_compute; reflexivity).
  eexists. split; [exact H|]. split; [reflexivity|]. split; [reflexivity|].
  exact (proj1 (returned_counts_balance _ _ _ _ H)).
Defined.

(** ** The backlog *)

Lemma max_depth_below_arrivals w p first log s :
  run_to w p (init_sim first) log s ->
  max_queue_depth (stats s) <= input_events (stats s).
Proof.
  intros Hr.
  induction Hr as [|log s ev rest s' Hr IH Hpop Hstep].
  - simpl. lia.
  - pose proof (consistent_run _ _ _ _ _ Hr) as [_ _ Hlo _ _ Hjobs _ _ _].
    pose proof (accounted_run _ _ _ _ _ Hr) as [_ Hacc _ _ _].
    pose proof (tally_nonneg logged_done log). simpl in Hacc.
    apply loop_body_continue in Hstep as (ev' & rest' & _ & _ & Hd).
    destruct ev' as [now|now start]; simpl in Hd.
    + apply on_input_inv in Hd. simpl in Hd.
      destruct Hd as [(_ & _ & ->)|(_ & ->)]; simpl; lia.
    + apply on_done_inv in Hd. simpl in Hd.
      destruct Hd as [_ [(_ & ->)|(arrived & qs & _ & ->)]]; simpl;
        [lia|].
      destruct (PrimFloat.ltb (twait p) (now - arrived)); simpl; lia.
Qed.

(** X5: [max_queue_depth] is the largest queue length seen just before an
    append (line 84), so in every state of a run the queue is at most one
    longer than it; the statistic is never negative and never exceeds the
    number of arrivals.  The same holds in the returned dictionary between
    [queue_end_len], [max_queue_depth] and [input_events]. *)
Theorem max_queue_depth_bounds w params fuel :
  (forall p s0 log s,
      configure w params = inr (p, s0) ->
      run_to w p s0 log s ->
      0 <= max_queue_depth (stats s) <= input_events (stats s)
      /\ len (queue s) <= max_queue_depth (stats s) + 1)
  /\ (forall r,
        simulate w params fuel = Some (inr r) ->
        0 <= Final.max_queue_depth r <= Final.input_events r
        /\ Final.queue_end_len r <= Final.max_queue_depth r + 1).
Proof.
  assert (Hst : forall p first log s,
             run_to w p (init_sim first) log s ->
             0 <= max_queue_depth (stats s) <= input_events (stats s)
             /\ len (queue s) <= max_queue_depth (stats s) + 1).
  { intros p first log s Hr.
    pose proof (backlog_bound _ _ _ _ _ Hr) as [H0 H1].
    pose proof (max_depth_below_arrivals _ _ _ _ _ Hr). lia. }
  split.
  - intros p s0 log s Hc Hr.
    apply configure_inv in Hc as (_ & -> & _). eapply Hst. exact Hr.
  - intros r H. apply simulate_inv in H as (p & log & s & He & Hf).
    apply finalize_inv in Hf as (-> & _ & _ & _ & -> & -> & _).
    apply run_ends_inv in He as (s1 & ev & rest & Hr & _ & _ & ->).
    simpl. eapply Hst. exact Hr.
Qed.

Lemma max_queue_depth_bounds_witness :
  exists r,
    simulate two_arrivals one_server 10 = Some (inr r)
    /\ Final.max_queue_depth r = 0
    /\ Final.queue_end_len r <= Final.max_queue_depth r + 1.
Proof.
  assert (H : simulate two_arrivals one_server 10
              = Some (inr (Final.mk 2 1 0 0 0.75 1 0.375 0 1 0 1 0 0 1)))
    by (vm_compute; reflexivity).
  eexists. split; [exact H|]. split; [reflexivity|].
  exact (proj2 (proj2 (max_queue_depth_bounds two_arrivals one_server 10)
                  _ H)).
Defined.

(** X6: every dispatched arrival is served at once or appended to the
    queue, and a queued job leaves the queue only by being classified: in
    every state the loop reaches, and in the state it breaks in,
    [input_events = served_immediately + wait_lt_twait + wait_gt_twait
    + len(queue)], and none of these counts is negative. *)
Theorem arrivals_split w p first log s :
  run_to w p (init_sim first) log s ->
  (input_events (stats s)
   = served_immediately (stats s) + wait_lt_twait (stats s)
     + wait_gt_twait (stats s) + len (queue s)
   /\ 0 <= served_immediately (stats s)
   /\ 0 <= wait_lt_twait (stats s)
   /\ 0 <= wait_gt_twait (stats s))
  /\ (forall s',
        loop_body w p s = Break s' ->
        input_events (stats s')
        = served_immediately (stats s') + wait_lt_twait (stats s')
          + wait_gt_twait (stats s') + len (queue s')).
Proof.
  intros Hr.
  pose proof (accounted_run _ _ _ _ _ Hr) as [_ Hd Hg Hl _].
  pose proof (tally_nonneg (dequeues_above p) log).
  pose proof (tally_nonneg (dequeues_within p) log).
  pose proof (tally_nonneg logged_done log).
  pose proof (tally_dequeues_split p log) as [Hsp1 Hsp2].
  pose proof (consistent_run _ _ _ _ _ Hr) as [_ _ Hlo _ _ Hjobs Hstarts _ _].
  simpl in *.
  split.
  - repeat split; lia.
  - intros s' Hb.
    apply loop_body_break in Hb as (ev & rest & _ & _ & ->). simpl. lia.
Qed.

Lemma arrivals_split_witness :
  run_to two_arrivals (config_of 1 2) (init_sim 0.25)
    (tl one_server_log) second_waits
  /\ input_events (stats second_waits)
     = served_immediately (stats second_waits)
       + wait_lt_twait (stats second_waits)
       + wait_gt_twait (stats second_waits) + len (queue second_waits).
Proof.
  assert (Ht : trace two_arrivals (config_of 1 2) 2 (init_sim 0.25)
               = Some (tl one_server_log, second_waits))
    by (vm_compute; reflexivity).
  apply trace_run_to in Ht.
  split; [exact Ht|].
  exact (proj1 (proj1 (arrivals_split _ _ _ _ _ Ht))).
Defined.

(** ** The arrival process and the waiting line *)

Lemma tally_zero_in {A} (f : A -> bool) xs x :
  tally f xs = 0 -> In x xs -> f x = false.
Proof.
  induction xs as [|y ys IH]; intros Hz Hin; [destruct Hin|].
  rewrite tally_cons in Hz. pose proof (tally_nonneg f ys).
  destruct Hin as [->|Hin].
  - destruct (f x); [lia|reflexivity].
  - apply IH; [|assumption]. destruct (f y); lia.
Qed.

(** X7: the arrival process does not depend on the servers: the [n]-th
    dispatched arrival happens at the sum of the first [n+1] draws, added
    from left to right; each draw is used once, in order (one at the start
    and one per dispatched arrival), and the one arrival that is pending
    is scheduled at the next such sum. *)
Theorem arrivals_follow_draws w p log s :
  run_to w p (init_sim (draws w 0)) log s ->
  arrivals log = map (arrival_time w) (seq 0 (List.length (arrivals log)))
  /\ drawn s = S (List.length (arrivals log))
  /\ input_events (stats s) = len (arrivals log)
  /\ (forall t, In (Input t) (events s) ->
                t = arrival_time w (List.length (arrivals log))).
Proof.
  induction 1 as [|log s ev rest s' Hr (IHa & IHd & IHi & IHp) Hpop Hstep].
  - simpl. repeat split; try reflexivity.
    intros t [[= <-]|[]]. reflexivity.
  - pose proof (consistent_run _ _ _ _ _ Hr) as [Hin _ _ _ _ _ _ _ _].
    apply loop_body_continue in Hstep as (ev' & rest' & Hpop' & _ & Hd).
    rewrite Hpop in Hpop'. injection Hpop' as <- <-.
    destruct (events s) as [|x xs] eqn:Ev; [discriminate|].
    injection Hpop as -> ->.
    rewrite tally_cons in Hin.
    destruct ev as [now|now start]; simpl in Hd, Hin; simpl arrivals.
    + assert (Hnow : now = arrival_time w (List.length (arrivals log)))
        by (apply IHp; left; reflexivity).
      assert (Hrest : forall t, ~ In (Input t) rest).
      { intros t Ht.
        assert (Hz : tally is_input rest = 0) by lia.
        pose proof (tally_zero_in _ _ _ Hz Ht). discriminate. }
      rewrite length_app. simpl List.length.
      replace (List.length (arrivals log) + 1)%nat
        with (S (List.length (arrivals log))) by lia.
      rewrite seq_S, map_app, <- IHa. simpl.
      apply on_input_inv in Hd. simpl in Hd.
      assert (Hnext : (now + draws w (drawn s))%float
                      = arrival_time w (S (List.length (arrivals log)))).
      { simpl. rewrite IHd, <- Hnow. reflexivity. }
      destruct Hd as [(_ & _ & ->)|(_ & ->)]; simpl;
        (split; [rewrite <- Hnow; reflexivity|]);
        (split; [rewrite IHd; reflexivity|]);
        (split; [rewrite len_snoc; lia|]);
        intros t Ht; rewrite !heappush_in in Ht.
      * destruct Ht as [[= ->]|[Ht|Ht]];
          [exact Hnext|discriminate Ht|destruct (Hrest _ Ht)].
      * destruct Ht as [[= ->]|Ht]; [exact Hnext|destruct (Hrest _ Ht)].
    + rewrite app_nil_r.
      apply on_done_inv in Hd. simpl in Hd.
      destruct Hd as [_ [(_ & ->)|(arrived & qs & _ & ->)]]; simpl.
      * repeat split; try assumption.
        intros t Ht. apply IHp. right. assumption.
      * repeat split; try assumption.
        -- destruct (PrimFloat.ltb (twait p) (now - arrived)); simpl;
             assumption.
        -- intros t Ht. rewrite heappush_in in Ht.
           destruct Ht as [Ht|Ht]; [discriminate Ht|].
           apply IHp. right. assumption.
Qed.

Lemma arrivals_follow_draws_witness :
  run_to two_arrivals (config_of 1 2) (init_sim (draws two_arrivals 0))
    one_server_log second_in_service
  /\ arrivals one_server_log = [0.25; 0.5]%float
  /\ drawn second_in_service = 3%nat
  /\ arrivals one_server_log
     = map (arrival_time two_arrivals)
         (seq 0 (List.length (arrivals one_server_log))).
Proof.
  assert (Ht : trace two_arrivals (config_of 1 2) 3
                 (init_sim (draws two_arrivals 0))
               = Some (one_server_log, second_in_service))
    by (vm_compute; reflexivity).
  apply trace_run_to in Ht.
  split; [exact Ht|]. split; [reflexivity|]. split; [reflexivity|].
  exact (proj1 (arrivals_follow_draws _ _ _ _ Ht)).
Defined.

(** X8: the waiting line is first in, first out: the jobs taken from the
    queue so far, in the order they were taken, followed by the jobs
    waiting now, from the head of the queue, are the queued arrivals in
    the order they arrived.  Every waiting job arrived at or before the
    horizon. *)
Theorem queue_is_fifo w p first log s :
  run_to w p (init_sim first) log s ->
  enqueued p log = dequeued log ++ queue s
  /\ Forall (arrived_in_time p) (queue s).
Proof.
  induction 1 as [|log s ev rest s' Hr [IHq IHt] Hpop Hstep].
  - split; [reflexivity|constructor].
  - apply loop_body_continue in Hstep as (ev' & rest' & Hpop' & Hle & Hd).
    rewrite Hpop in Hpop'. injection Hpop' as <- <-.
    destruct ev as [now|now start]; simpl in Hd, Hle; simpl enqueued;
      simpl dequeued.
    + apply on_input_inv in Hd. simpl in Hd.
      destruct Hd as [(Hlt & Hq & ->)|(Hge & ->)]; simpl.
      * apply Z.ltb_lt in Hlt. rewrite Hlt. simpl.
        rewrite IHq, Hq, !app_nil_r. split; [reflexivity|constructor].
      * apply Z.ltb_ge in Hge. rewrite Hge. simpl.
        rewrite app_nil_r, IHq, app_assoc. split; [reflexivity|].
        apply Forall_app. split; [assumption|].
        constructor; [exact Hle|constructor].
    + apply on_done_inv in Hd. simpl in Hd.
      destruct Hd as [_ [(Hq & ->)|(arrived & qs & Hq & ->)]]; simpl;
        rewrite Hq in *; rewrite app_nil_r.
      * rewrite app_nil_r. split; [assumption|constructor].
      * rewrite IHq, <- app_assoc. split; [reflexivity|].
        inversion IHt; assumption.
Qed.

Lemma queue_is_fifo_witness :
  run_to two_arrivals (config_of 1 2) (init_sim 0.25)
    one_server_log second_in_service
  /\ enqueued (config_of 1 2) one_server_log = [0.5%float]
  /\ dequeued one_server_log = [0.5%float]
  /\ enqueued (config_of 1 2) one_server_log
     = dequeued one_server_log ++ queue second_in_service.
Proof.
  assert (Ht : trace two_arrivals (config_of 1 2) 3 (init_sim 0.25)
               = Some (one_server_log, second_in_service))
    by (vm_compute; reflexivity).
  apply trace_run_to in Ht.
  split; [exact Ht|]. split; [reflexivity|]. split; [reflexivity|].
  exact (proj1 (queue_is_fifo _ _ _ _ _ Ht)).
Defined.

Lemma arrivals_snoc_incl log x a :
  In a (arrivals log) -> In a (arrivals (x :: log)).
Proof.
  destruct x as [ev s]. simpl. intros H. apply in_or_app. left. assumption.
Qed.

(** X9: every job the simulation holds is a job that arrived: the
    timestamps in the waiting queue and the arrival times carried by the
    pending completions (from which lines 94 and 103 compute completion
    and wait times) are times of dispatched arrivals. *)
Theorem held_jobs_arrived w p first log s :
  run_to w p (init_sim first) log s ->
  (forall a, In a (queue s) -> In a (arrivals log))
  /\ (forall e a, In e (events s) -> start_of e = Some a ->
                  In a (arrivals log)).
Proof.
  induction 1 as [|log s ev rest s' Hr [IHq IHe] Hpop Hstep].
  - split.
    + intros a [].
    + intros e a [<-|[]]. discriminate.
  - apply loop_body_continue in Hstep as (ev' & rest' & Hpop' & _ & Hd).
    rewrite Hpop in Hpop'. injection Hpop' as <- <-.
    destruct (events s) as [|x xs] eqn:Ev; [discriminate|].
    injection Hpop as -> ->.
    assert (Hrest : forall e a, In e rest -> start_of e = Some a ->
                                In a (arrivals ((ev, s) :: log))).
    { intros e a He Hs. apply arrivals_snoc_incl.
      eapply IHe; [right; exact He|exact Hs]. }
    assert (Hqueue : forall a, In a (queue s) ->
                               In a (arrivals ((ev, s) :: log))).
    { intros a Ha. apply arrivals_snoc_incl. apply IHq. assumption. }
    destruct ev as [now|now start]; simpl in Hd.
    + assert (Hnow : In now (arrivals ((Input now, s) :: log))).
      { simpl. apply in_or_app. right. left. reflexivity. }
      apply on_input_inv in Hd. simpl in Hd.
      destruct Hd as [(_ & Hq & ->)|(_ & ->)]; simpl queue; simpl events.
      * split; [intros a []|].
        intros e a He Hs. rewrite !heappush_in in He.
        destruct He as [->|[->|He]]; [discriminate| |eauto].
        injection Hs as <-. exact Hnow.
      * split.
        -- intros a Ha. apply in_app_or in Ha.
           destruct Ha as [Ha|[<-|[]]]; [auto|exact Hnow].
        -- intros e a He Hs. rewrite heappush_in in He.
           destruct He as [->|He]; [discriminate|eauto].
    + apply on_done_inv in Hd. simpl in Hd.
      destruct Hd as [_ [(Hq & ->)|(arrived & qs & Hq & ->)]];
        simpl queue; simpl events.
      * split; [intros a []|exact Hrest].
      * split.
        -- intros a Ha. apply Hqueue. rewrite Hq. right. assumption.
        -- intros e a He Hs. rewrite heappush_in in He.
           destruct He as [->|He]; [|eauto].
           injection Hs as <-. apply Hqueue. rewrite Hq. left. reflexivity.
Qed.

Lemma held_jobs_arrived_witness :
  run_to two_arrivals (config_of 1 2) (init_sim 0.25)
    one_server_log second_in_service
  /\ In (Done 2.25 0.5) (events second_in_service)
  /\ start_of (Done 2.25 0.5) = Some 0.5%float
  /\ In 0.5%float (arrivals one_server_log).
Proof.
  assert (Ht : trace two_arrivals (config_of 1 2) 3 (init_sim 0.25)
               = Some (one_server_log, second_in_service))
    by (vm_compute; reflexivity).
  apply trace_run_to in Ht.
  split; [exact Ht|]. split; [left; reflexivity|]. split; [reflexivity|].
  exact (proj2 (held_jobs_arrived _ _ _ _ _ Ht) _ _
           (or_introl eq_refl) eq_refl).
Defined.

(** ** The order of dispatch *)

Lemma tuple_le_time a b :
  tuple_le a b -> PrimFloat.ltb (time b) (time a) = false.
Proof.
  unfold tuple_le. rewrite tuple_lt_lex. intros H.
  apply orb_false_iff in H. tauto.
Qed.

(** X13: time does not run backwards.  As long as adding the service time
    or a draw to the time of a dispatched event never gave an earlier time
    (as is the case for a non-negative service time and non-negative
    draws), the events were dispatched in non-decreasing order of time and
    no pending event lies before the event dispatched last: nothing was
    scheduled into the past. *)
Theorem dispatch_is_chronological w p first log s :
  run_to w p (init_sim first) log s ->
  Forall (forward w p) log ->
  chronological log /\ none_overdue log s.
Proof.
  induction 1 as [|log s ev rest s' Hr IH Hpop Hstep]; intros Hf.
  - split; exact I.
  - inversion Hf as [|x l [Hfd Hft] Hf' Heq]; subst.
    destruct (IH Hf') as [IHc IHo]. simpl in Hfd, Hft.
    pose proof (consistent_run _ _ _ _ _ Hr) as [_ _ _ _ _ _ _ _ Hsorted].
    destruct (heappop_least _ _ _ Hsorted Hpop) as [_ Hleast].
    assert (Hrest : Forall (fun e => PrimFloat.ltb (time e) (time ev) = false)
                      rest).
    { eapply Forall_impl; [|exact Hleast].
      intros a Ha. apply tuple_le_time. exact Ha. }
    destruct (events s) as [|x xs] eqn:Ev; [discriminate|].
    injection Hpop as -> ->.
    split.
    + simpl. split; [|exact IHc].
      destruct log as [|[prev sp] older]; [exact I|].
      simpl in IHo. rewrite Ev in IHo. inversion IHo; assumption.
    + apply loop_body_continue in Hstep as (ev' & rest' & Hpop' & _ & Hd).
      rewrite Ev in Hpop'. injection Hpop' as <- <-.
      unfold none_overdue. simpl fst.
      destruct ev as [now|now start]; simpl in Hd, Hfd, Hft, Hrest |- *.
      * apply on_input_inv in Hd. simpl in Hd.
        destruct Hd as [(_ & _ & ->)|(_ & ->)]; simpl events;
          rewrite Forall_forall in *; intros e He;
          rewrite ?heappush_in in He;
          repeat (destruct He as [->|He]); auto.
      * apply on_done_inv in Hd. simpl in Hd.
        destruct Hd as [_ [(_ & ->)|(arrived & qs & _ & ->)]]; simpl events;
          rewrite Forall_forall in *; intros e He;
          rewrite ?heappush_in in He;
          repeat (destruct He as [->|He]); auto.
Qed.

Lemma dispatch_is_chronological_witness :
  run_to two_arrivals (config_of 1 2) (init_sim 0.25)
    one_server_log second_in_service
  /\ Forall (forward two_arrivals (config_of 1 2)) one_server_log
  /\ chronological one_server_log.
Proof.
  assert (Ht : trace two_arrivals (config_of 1 2) 3 (init_sim 0.25)
               = Some (one_server_log, second_in_service))
    by (vm_compute; reflexivity).
  apply trace_run_to in Ht.
  assert (Hf : Forall (forward two_arrivals (config_of 1 2)) one_server_log).
  { repeat constructor. }
  split; [exact Ht|]. split; [exact Hf|].
  exact (proj1 (dispatch_is_chronological _ _ _ _ _ Ht Hf)).
Defined.

(** ** The accumulated times *)

Lemma fsum_snoc xs x : fsum (xs ++ [x]) = (fsum xs + x)%float.
Proof. unfold fsum. now rewrite fold_left_app. Qed.

Lemma accumulators_run w p first log s :
  run_to w p (init_sim first) log s ->
  avg_completion_time (stats s) = fsum (completion_times log)
  /\ avg_wait_time (stats s) = fsum (wait_times log)
  /\ avg_queue_depth (stats s) = fsum (queue_areas p log).
Proof.
  induction 1 as [|log s ev rest s' Hr (IHc & IHw & IHq) Hpop Hstep].
  - repeat split; reflexivity.
  - apply loop_body_continue in Hstep as (ev' & rest' & Hpop' & _ & Hd).
    rewrite Hpop in Hpop'. injection Hpop' as <- <-.
    destruct ev as [now|now start]; simpl in Hd;
      simpl completion_times; simpl wait_times; simpl queue_areas.
    + apply on_input_inv in Hd. simpl in Hd.
      destruct Hd as [(Hlt & _ & ->)|(Hge & ->)]; simpl.
      * apply Z.ltb_lt in Hlt. rewrite Hlt. simpl.
        rewrite !app_nil_r. auto.
      * apply Z.ltb_ge in Hge. rewrite Hge. simpl.
        rewrite !app_nil_r, fsum_snoc, <- IHq. auto.
    + apply on_done_inv in Hd. simpl in Hd.
      destruct Hd as [_ [(Hq & ->)|(arrived & qs & Hq & ->)]]; simpl;
        rewrite Hq; simpl.
      * rewrite !app_nil_r, fsum_snoc, <- IHc. auto.
      * destruct (PrimFloat.ltb (twait p) (now - arrived)); simpl;
          rewrite !fsum_snoc, <- IHc, <- IHw, <- IHq;
          repeat split; reflexivity.
Qed.

Lemma finalize_averages w endtime s r :
  finalize w endtime s = inr r ->
  Final.avg_wait_time r
  = (avg_wait_time (stats s) / float_of_Z (done_events (stats s)))%float
  /\ Final.avg_completion_time r
     = (avg_completion_time (stats s)
        / float_of_Z (done_events (stats s)))%float
  /\ Final.avg_queue_depth r
     = (avg_queue_depth (stats s) / float_of endtime)%float.
Proof.
  unfold finalize, bind.
  destruct (num_truediv (PyFloat (avg_wait_time (stats s))) _) as [|awt]
    eqn:E1; [discriminate|].
  destruct (num_truediv (PyFloat (avg_completion_time (stats s))) _)
    as [|act] eqn:E2; [discriminate|].
  destruct (num_truediv (PyFloat (avg_queue_depth (stats s))) _) as [|aqd]
    eqn:E3; [discriminate|].
  repeat match goal with
    | |- context [match num_truediv ?a ?b with _ => _ end] =>
        destruct (num_truediv a b); [discriminate|]
    end.
  apply float_truediv_inv in E1 as [-> _], E2 as [-> _], E3 as [-> _].
  intros [= <-]. simpl. auto.
Qed.

(** X14: what the three averages of the returned dictionary are.  With the
    log of the dispatched events, [avg_completion_time] is the sum of
    [now - start] over the completions, [avg_wait_time] the sum of the
    waits of the jobs taken from the queue, both divided by
    [done_events] (the number of completions, not of jobs that waited),
    and [avg_queue_depth] the sum of the areas added at each change of the
    queue, divided by [endtime] (the parameter, converted to a float);
    each sum is a float sum taken in the order of dispatch. *)
Theorem returned_averages w params fuel r :
  simulate w params fuel = Some (inr r) ->
  exists p log s,
    configure w params = inr (p, init_sim (draws w 0))
    /\ run_ends w p (init_sim (draws w 0)) log s
    /\ Final.done_events r = tally logged_done log
    /\ Final.avg_completion_time r
       = (fsum (completion_times log) / float_of_Z (Final.done_events r))%float
    /\ Final.avg_wait_time r
       = (fsum (wait_times log) / float_of_Z (Final.done_events r))%float
    /\ Final.avg_queue_depth r
       = (fsum (queue_areas p log)
          / float_of (dict_get params "endtime"))%float.
Proof.
  intros H. unfold simulate in H.
  destruct (configure w params) as [e|[p s0]] eqn:Hc; [discriminate|].
  pose proof (configure_inv _ _ _ _ Hc) as (_ & -> & _).
  destruct (loop w p fuel _) as [[e|s]|] eqn:Hl; try discriminate.
  injection H as Hf.
  destruct (loop_run_ends w p _ fuel [] _ s (run_start _ _ _) Hl) as [log He].
  exists p, log, s. split; [reflexivity|]. split; [exact He|].
  pose proof (finalize_inv _ _ _ _ Hf) as (_ & -> & _).
  pose proof (finalize_averages _ _ _ _ Hf) as (-> & -> & ->).
  apply run_ends_inv in He as (s1 & ev & rest & Hr & _ & _ & ->).
  pose proof (accounted_run _ _ _ _ _ Hr) as [_ Hd _ _ _].
  pose proof (accumulators_run _ _ _ _ _ Hr) as (Ha & Hb & Hq).
  simpl in *. rewrite Ha, Hb, Hq. repeat split. lia.
Qed.

Lemma returned_averages_witness :
  exists r,
    simulate two_arrivals one_server 10 = Some (inr r)
    /\ Final.avg_wait_time r = 0.75%float
    /\ fsum (wait_times one_server_log) = 0.75%float
    /\ exists p log s,
         configure two_arrivals one_server
         = inr (p, init_sim (draws two_arrivals 0))
         /\ run_ends two_arrivals p (init_sim (draws two_arrivals 0)) log s.
Proof.
  assert (H : simulate two_arrivals one_server 10
              = Some (inr (Final.mk 2 1 0 0 0.75 1 0.375 0 1 0 1 0 0 1)))
    by (vm_compute; reflexivity).
  eexists. split; [exact H|]. split; [reflexivity|]. split; [reflexivity|].
  destruct (returned_averages _ _ _ _ H) as (p & log & s & Hc & He & _).
  exists p, log, s. split; [exact Hc|exact He].
Defined.

(** ** The script around simulate *)

Lemma dict_find_get d key v : dict_find d key = Some v -> dict_get d key = v.
Proof.
  induction d as [|[k x] rest IH]; simpl; [discriminate|].
  destruct (String.eqb k key); [now intros [= ->]|assumption].
Qed.

Lemma dict_get_find d key :
  dict_get d key <> PyNone -> exists v, dict_find d key = Some v.
Proof.
  induction d as [|[k x] rest IH]; simpl; [congruence|].
  destruct (String.eqb k key); eauto.
Qed.

Lemma number_param_ok params name :
  is_number (dict_get params name) = true ->
  param_ok params (name, TIntOrFloat) = true.
Proof.
  unfold param_ok. simpl. destruct (dict_get params name); now simpl.
Qed.

Lemma nonzero_float_is_nonzero v :
  is_number v = true -> PrimFloat.eqb (float_of v) 0 = false ->
  is_zero v = false.
Proof.
  destruct v as [|b|z|f|s]; simpl; try discriminate; intros _.
  - destruct b; [reflexivity|]. intros H. vm_compute in H. discriminate.
  - destruct (Z.eqb_spec z 0) as [->|]; [|reflexivity].
    intros H. vm_compute in H. discriminate.
  - trivial.
Qed.

(** What a successful [prepare] has read and written. *)
Lemma prepare_inv simdata sd :
  prepare simdata = inr sd ->
  exists nevents lv uv q dv,
    dict_find simdata "nevents" = Some nevents
    /\ dict_find simdata "l" = Some lv
    /\ dict_find simdata "u" = Some uv
    /\ is_number nevents = true /\ is_number lv = true
    /\ is_number uv = true
    /\ num_truediv nevents lv = inr q
    /\ num_truediv (PyFloat 1) uv = inr dv
    /\ sd = setitem (setitem simdata "endtime" (PyFloat q)) "d" (PyFloat dv).
Proof.
  unfold prepare, getitem, py_truediv.
  destruct (dict_find simdata "nevents") as [nevents|] eqn:Hn;
    [|discriminate].
  destruct (dict_find simdata "l") as [lv|] eqn:Hl; [|discriminate].
  destruct (is_number nevents) eqn:Nn; simpl; [|discriminate].
  destruct (is_number lv) eqn:Nl; simpl; [|discriminate].
  destruct (num_truediv nevents lv) as [e|q] eqn:Hq; [discriminate|].
  destruct (dict_find simdata "u") as [uv|] eqn:Hu; [|discriminate].
  destruct (is_number uv) eqn:Nu; simpl; [|discriminate].
  destruct (num_truediv (PyFloat 1) uv) as [e|dv] eqn:Hd; [discriminate|].
  intros [= <-]. exists nevents, lv, uv, q, dv. auto 12.
Qed.

(** After a successful [prepare] the parameter block of [simulate] accepts
    the dictionary, or rejects [c] or [twait], or fails at line 45. *)
Lemma configure_prepared w simdata sd :
  prepare simdata = inr sd ->
  exists q,
    num_truediv (dict_get simdata "nevents") (dict_get simdata "l") = inr q
    /\ is_zero (dict_get simdata "u") = false
    /\ ((exists lam dv,
            configure w sd
            = inr (mkConfig lam dv (int_of (dict_get simdata "c"))
                     (threshold (dict_get simdata "twait")) q,
                   init_sim (draws w 0))
            /\ as_float (dict_get simdata "l") = inr lam
            /\ num_truediv (PyInt 1) (dict_get simdata "u") = inr dv)
        \/ configure w sd = inl (SystemExit 1 (param_error "c"))
        \/ configure w sd = inl (SystemExit 1 (param_error "twait"))
        \/ (exists e,
               configure w sd = inl e
               /\ (e = ZeroDivisionError \/ e = OverflowError)
               /\ param_ok sd ("c"%string, TInt) = true
               /\ param_ok sd ("twait"%string, TIntOrFloat) = true)).
Proof.
  intros H.
  apply prepare_inv in H
    as (nevents & lv & uv & q & dv & Hn & Hl & Hu & Nn & Nl & Nu & Hq & Hd
        & ->).
  apply dict_find_get in Hn, Hl, Hu. subst nevents lv uv.
  assert (Zu : is_zero (dict_get simdata "u") = false).
  { apply nonzero_float_is_nonzero; [exact Nu|].
    apply float_truediv_inv in Hd. tauto. }
  exists q. split; [exact Hq|]. split; [exact Zu|].
  pose proof (one_over_cases _ Nu) as Hone. rewrite Zu in Hone.
  destruct Hone as [dv' Hdv'].
  unfold configure, expovariate. rewrite !get_param_spec.
  rewrite (number_param_ok _ "l") by exact Nl.
  rewrite (number_param_ok _ "u") by exact Nu.
  simpl bind.
  change (dict_get (setitem (setitem simdata "endtime" (PyFloat q)) "d"
                      (PyFloat dv)) "u")
    with (dict_get simdata "u").
  rewrite Hdv'. simpl bind.
  destruct (param_ok _ ("c"%string, TInt)) eqn:Oc; simpl bind;
    [|right; left; reflexivity].
  destruct (param_ok _ ("twait"%string, TIntOrFloat)) eqn:Ot; simpl bind;
    [|right; right; left; reflexivity].
  change (dict_get (setitem (setitem simdata "endtime" (PyFloat q)) "d"
                      (PyFloat dv)) "l")
    with (dict_get simdata "l").
  destruct (as_float (dict_get simdata "l")) as [e|lam] eqn:El; simpl bind.
  { right; right; right. exists e. split; [reflexivity|].
    split; [right; eapply as_float_raises; exact El|]. auto. }
  destruct (PrimFloat.eqb lam 0); simpl bind.
  { right; right; right. exists ZeroDivisionError. auto. }
  left. exists lam, dv'. auto.
Qed.

(** X10: when lines 169-170 succeed, [nevents], [l] and [u] are numbers,
    [u] is not zero, and the dictionary passed to [simulate] holds
    [endtime = nevents / l], whatever [endtime] the input file gave, and
    [d = 1.0/u].  In [simulate], [get_param] then accepts [l], [u] and
    [endtime] and [1/u] raises nothing: the parameter block either
    accepts the dictionary, with [nevents / l] as the horizon and [c] and
    [twait] as given, or fails by [get_param] rejecting [c] or [twait],
    or fails at line 45, in [random.expovariate]. *)
Theorem script_prepares_simulate w simdata sd :
  prepare simdata = inr sd ->
  exists q dv,
    num_truediv (dict_get simdata "nevents") (dict_get simdata "l") = inr q
    /\ num_truediv (PyFloat 1) (dict_get simdata "u") = inr dv
    /\ dict_get sd "endtime" = PyFloat q
    /\ dict_get sd "d" = PyFloat dv
    /\ is_zero (dict_get simdata "u") = false
    /\ ((exists p,
            configure w sd = inr (p, init_sim (draws w 0))
            /\ endtime p = q
            /\ as_float (dict_get simdata "l") = inr (l p)
            /\ num_truediv (PyInt 1) (dict_get simdata "u") = inr (d p)
            /\ c p = int_of (dict_get simdata "c")
            /\ twait p = threshold (dict_get simdata "twait"))
        \/ configure w sd = inl (SystemExit 1 (param_error "c"))
        \/ configure w sd = inl (SystemExit 1 (param_error "twait"))
        \/ (exists e,
               configure w sd = inl e
               /\ (e = ZeroDivisionError \/ e = OverflowError)
               /\ param_ok sd ("c"%string, TInt) = true
               /\ param_ok sd ("twait"%string, TIntOrFloat) = true)).
Proof.
  intros H.
  destruct (configure_prepared w _ _ H) as (q & Hq & Zu & Hc).
  apply prepare_inv in H
    as (nevents & lv & uv & q' & dv & Hn & Hl & Hu & _ & _ & _ & Hq' & Hd
        & ->).
  apply dict_find_get in Hn, Hl, Hu. subst nevents lv uv.
  assert (q' = q) by congruence. subst q'.
  exists q, dv. split; [exact Hq|]. split; [exact Hd|].
  split; [reflexivity|]. split; [reflexivity|]. split; [exact Zu|].
  destruct Hc as [(lam & dv' & Hc & Hlam & Hdv')|[Hc|[Hc|Hc]]];
    [left|right; left|right; right; left|right; right; right];
    try exact Hc.
  eexists. split; [exact Hc|]. simpl. auto 10.
Qed.

Lemma script_prepares_simulate_witness :
  exists sd,
    prepare sample_simdata = inr sd
    /\ dict_get sample_simdata "endtime" = PyFloat 1000
    /\ dict_get sd "endtime" = PyFloat 2.
Proof.
  assert (H : prepare sample_simdata
              = inr (setitem (setitem sample_simdata "endtime" (PyFloat 2))
                       "d" (PyFloat 1))) by reflexivity.
  eexists. split; [exact H|]. split; [reflexivity|].
  destruct (script_prepares_simulate two_arrivals _ _ H)
    as (q & dv & _ & _ & He & _).
  reflexivity.
Defined.

Lemma prepare_raises simdata e :
  prepare simdata = inl e ->
  e = KeyError "nevents" \/ e = KeyError "l" \/ e = KeyError "u"
  \/ e = TypeError \/ e = Uncaught ZeroDivisionError
  \/ e = Uncaught OverflowError.
Proof.
  assert (Hdiv : forall a b e',
             num_truediv a b = inl e' ->
             Uncaught e' = Uncaught ZeroDivisionError
             \/ Uncaught e' = Uncaught OverflowError).
  { intros a b e' H. apply num_truediv_raises in H as [->| ->]; auto. }
  unfold prepare, getitem, py_truediv.
  destruct (dict_find simdata "nevents") as [nevents|];
    [|intros [= <-]; auto].
  destruct (dict_find simdata "l") as [lv|]; [|intros [= <-]; auto].
  destruct (is_number nevents && is_number lv); [|intros [= <-]; auto 6].
  destruct (num_truediv nevents lv) as [e1|q] eqn:Hq.
  { intros [= <-]. destruct (Hdiv _ _ _ Hq) as [->| ->]; auto 10. }
  simpl.
  destruct (dict_find simdata "u") as [uv|]; [|intros [= <-]; auto].
  destruct (is_number uv); simpl; [|intros [= <-]; auto 6].
  destruct (num_truediv (PyFloat 1) uv) as [e1|dv] eqn:Hd; [|discriminate].
  intros [= <-]. destruct (Hdiv _ _ _ Hd) as [->| ->]; auto 10.
Qed.

(** X11: whatever the input dictionary holds, the script can end by an
    exception only in these ways: [KeyError] for a missing [nevents], [l]
    or [u]; [TypeError] for one of them that is not a number;
    [ZeroDivisionError] or [OverflowError] from a division (lines 169-170,
    line 45 or the finalize step); the exit of [get_param] naming [c] or
    [twait].  No assertion fails and [heappop] never meets an empty
    list. *)
Theorem script_exceptions w simdata fuel e :
  run_script w simdata fuel = Some (inl e) ->
  e = KeyError "nevents" \/ e = KeyError "l" \/ e = KeyError "u"
  \/ e = TypeError \/ e = Uncaught ZeroDivisionError
  \/ e = Uncaught OverflowError
  \/ e = Uncaught (SystemExit 1 (param_error "c"))
  \/ e = Uncaught (SystemExit 1 (param_error "twait")).
Proof.
  unfold run_script.
  destruct (prepare simdata) as [e1|sd] eqn:Hp.
  - intros [= <-]. pose proof (prepare_raises _ _ Hp) as H. tauto.
  - destruct (simulate w sd fuel) as [[e1|r]|] eqn:Hs; try discriminate.
    intros [= <-].
    destruct (configure_prepared w simdata sd Hp)
      as (q & _ & _ & [(lam & dv & Hc & _)|[Hc|[Hc|(e2 & Hc & He & _)]]]).
    + unfold simulate in Hs. rewrite Hc in Hs.
      pose proof (configure_inv _ _ _ _ Hc) as (_ & _ & Hl & _).
      destruct (loop w _ fuel (init_sim (draws w 0))) as [[e2|s]|] eqn:Hloop;
        try discriminate.
      * exfalso.
        eapply (loop_raises_nothing w _ (draws w 0) [] _ fuel e2 Hl);
          [constructor|exact Hloop].
      * injection Hs as Hf.
        destruct (finalize_raises _ _ _ _ Hf) as [->| ->]; auto 10.
    + unfold simulate in Hs. rewrite Hc in Hs. injection Hs as <-. auto 10.
    + unfold simulate in Hs. rewrite Hc in Hs. injection Hs as <-. auto 10.
    + unfold simulate in Hs. rewrite Hc in Hs. injection Hs as <-.
      destruct He as [->| ->]; auto 10.
Qed.

Lemma script_exceptions_witness :
  run_script two_arrivals one_server 10 = Some (inl (KeyError "nevents"))
  /\ (KeyError "nevents" = KeyError "nevents"
      \/ KeyError "nevents" = KeyError "l"
      \/ KeyError "nevents" = KeyError "u"
      \/ KeyError "nevents" = TypeError
      \/ KeyError "nevents" = Uncaught ZeroDivisionError
      \/ KeyError "nevents" = Uncaught OverflowError
      \/ KeyError "nevents" = Uncaught (SystemExit 1 (param_error "c"))
      \/ KeyError "nevents" = Uncaught (SystemExit 1 (param_error "twait"))).
Proof.
  assert (H : run_script two_arrivals one_server 10
              = Some (inl (KeyError "nevents"))) by reflexivity.
  split; [exact H|].
  exact (script_exceptions _ _ _ _ H).
Defined.

(** ** CSV output *)

Lemma param_ok_find params nt :
  param_ok params nt = true -> exists v, dict_find params (fst nt) = Some v.
Proof.
  unfold param_ok. intros H. apply dict_get_find.
  destruct (dict_get params (fst nt)); simpl in H; congruence.
Qed.

(** X12: [write_csv] applied to the dictionary the script passed to
    [simulate] and to the statistics [simulate] returned raises no
    [KeyError]: every name of [params_fields] and [stats_fields] is a key
    of the dictionary it is looked up in.  The line it prints has one
    value per name of the header [write_csv_header] prints, 16 of them,
    whatever [str] makes of each value. *)
Theorem write_csv_after_run w simdata fuel sd r to_str :
  run_script w simdata fuel = Some (inr (sd, r)) ->
  exists values,
    write_csv to_str sd (stats_dict r) = inr (join values ++ newline)%string
    /\ List.length values = List.length (params_fields ++ stats_fields)
    /\ List.length values = 16%nat
    /\ write_csv_header
       = (join (params_fields ++ stats_fields) ++ newline)%string.
Proof.
  unfold run_script.
  destruct (prepare simdata) as [e|sd'] eqn:Hp; [discriminate|].
  destruct (simulate w sd' fuel) as [[e|r']|] eqn:Hs; try discriminate.
  intros [= <- <-].
  assert (Hw : well_typed sd' = true).
  { unfold simulate in Hs.
    destruct (configure w sd') as [e|[p s0]] eqn:Hc; [discriminate|].
    now apply configure_inv in Hc. }
  unfold well_typed in Hw.
  assert (Hall : forall nt, In nt param_types ->
                            exists v, dict_find sd' (fst nt) = Some v).
  { intros nt Hin. apply param_ok_find.
    eapply forallb_forall in Hw; eassumption. }
  destruct (Hall ("l"%string, TIntOrFloat)) as [vl Hvl]; [simpl; auto|].
  destruct (Hall ("u"%string, TIntOrFloat)) as [vu Hvu]; [simpl; auto|].
  destruct (Hall ("c"%string, TInt)) as [vc Hvc]; [simpl; auto|].
  destruct (Hall ("twait"%string, TIntOrFloat)) as [vt Hvt]; [simpl; auto|].
  destruct (Hall ("endtime"%string, TIntOrFloat)) as [ve Hve];
    [simpl; auto 6|].
  simpl in Hvl, Hvu, Hvc, Hvt, Hve.
  unfold write_csv, params_fields. simpl str_items. unfold getitem.
  rewrite Hvl, Hvu, Hvc, Hvt, Hve.
  eexists. split; [reflexivity|]. repeat split.
Qed.

Lemma write_csv_after_run_witness :
  exists sd r,
    run_script two_arrivals sample_simdata 10 = Some (inr (sd, r))
    /\ List.length (params_fields ++ stats_fields) = 16%nat
    /\ exists values,
         write_csv (fun _ => "x"%string) sd (stats_dict r)
         = inr (join values ++ newline)%string.
Proof.
  assert (H : run_script two_arrivals sample_simdata 10
              = Some (inr (setitem (setitem sample_simdata "endtime"
                                      (PyFloat 2)) "d" (PyFloat 1),
                           Final.mk 2 1 0 0 0.75 1 0.375 0 1 0 1 0 0 1)))
    by (vm_compute; reflexivity).
  eexists _, _. split; [exact H|]. split; [reflexivity|].
  destruct (write_csv_after_run _ _ _ _ _ (fun _ => "x"%string) H)
    as (values & Hv & _).
  exists values. exact Hv.
Defined.
